(** * Changeset counts over time ([enterprise/pkg/a8n/counts.go]) and the
      webhook signature helper of the GitHub webhook test

    A shallow embedding of [CalcCounts], [generateTimestamps] and [sign],
    followed by the properties stated about them. *)

From Stdlib Require Import ZArith Lia.
From Stdlib Require Import Strings.String Strings.Ascii Init.Byte.
From Stdlib Require Import DecimalString DecimalZ DecimalPos.
From stdpp Require Import gmap list sorting.

Local Open Scope Z_scope.

(** ** [time.Time]

    An instant is the number of nanoseconds since a fixed epoch.  [Before],
    [After] and [Equal] compare instants, [Add] shifts one by a duration
    (also in nanoseconds).  The range limits of [time.Time] are not
    modelled. *)

Module time.

Abbreviation Time := Z.
Abbreviation Duration := Z.

Definition Nanosecond : Duration := 1.
Definition Microsecond : Duration := 1000 * Nanosecond.
Definition Millisecond : Duration := 1000 * Microsecond.
Definition Second : Duration := 1000 * Millisecond.
Definition Minute : Duration := 60 * Second.
Definition Hour : Duration := 60 * Minute.

Definition Before (t u : Time) : bool := t <? u.
Definition After (t u : Time) : bool := u <? t.
Definition Equal (t u : Time) : bool := t =? u.
Definition Add (t : Time) (d : Duration) : Time := t + d.

End time.

(** The step of the sampling loop, [24 * time.Hour]. *)
Definition day : time.Duration := 24 * time.Hour.

(** ** [generateTimestamps] *)

(** [ts[i], ts[j] = ts[j], ts[i]].  Go panics when an index is out of range;
    the reversing loop below only uses indices inside the slice. *)
Definition swap (ts : list time.Time) (i j : nat) : list time.Time :=
  match ts !! i, ts !! j with
  | Some a, Some b => <[j:=a]> (<[i:=b]> ts)
  | _, _ => ts
  end.

(** The first loop of [generateTimestamps]:
    [for t := end; t.After(start) || t.Equal(start); t = t.Add(-24 * time.Hour)]
    with body [ts = append(ts, t)].  [fuel] bounds the number of iterations;
    [walkBackwards_fuel] shows that the bound used by [generateTimestamps] is
    never the reason why the loop stops. *)
Fixpoint walkBackwards (fuel : nat) (start t : time.Time)
    (ts : list time.Time) : list time.Time :=
  match fuel with
  | O => ts
  | S fuel' =>
      if time.After t start || time.Equal t start
      then walkBackwards fuel' start (time.Add t (-24 * time.Hour)) (ts ++ [t])
      else ts
  end.

(** The second loop: [for i := len(ts)/2 - 1; i >= 0; i--], swapping [ts[i]]
    with [ts[len(ts)-1-i]].  [reverseFrom n ts] runs it for
    [i = n-1, ..., 0]. *)
Fixpoint reverseFrom (n : nat) (ts : list time.Time) : list time.Time :=
  match n with
  | O => ts
  | S i => reverseFrom i (swap ts i (length ts - 1 - i))
  end.

Definition reverseInPlace (ts : list time.Time) : list time.Time :=
  reverseFrom (length ts / 2) ts.

(** Number of instants [end, end - 24h, ...] that are at or after [start]. *)
Definition samples (start end_ : time.Time) : nat :=
  Z.to_nat ((end_ - start) / day + 1).

Definition generateTimestamps (start end_ : time.Time) : list time.Time :=
  reverseInPlace (walkBackwards (samples start end_) start end_ []).

(** ** [int32] counters

    The counters of a snapshot are [int32]; [++] and [--] wrap around in
    two's complement. *)

Definition wrap32 (z : Z) : Z := (z + 2 ^ 31) mod 2 ^ 32 - 2 ^ 31.
Definition incr (x : Z) : Z := wrap32 (x + 1).
Definition decr (x : Z) : Z := wrap32 (x - 1).
(** [x + y] on [int32]. *)
Definition add32 (x y : Z) : Z := wrap32 (x + y).

(** ** Package [internal/a8n]

    [counts.go] imports the package for the changesets and the kinds of
    their events; only what [CalcCounts] uses of it is modelled. *)

Module a8n.

(** Modelled from the spec: the event kinds of [internal/a8n]
    ("a kind drawn from a fixed enumeration {closed, reopened, merged,
    reviewed, ...}").  [ChangesetEventKindOther] stands for every kind that
    [CalcCounts] does not name. *)
Inductive ChangesetEventKind : Type :=
| ChangesetEventKindGitHubClosed
| ChangesetEventKindGitHubReopened
| ChangesetEventKindGitHubMerged
| ChangesetEventKindGitHubReviewed
| ChangesetEventKindOther.

(** Modelled from the spec: the error of a changeset whose opening instant
    cannot be established. *)
Inductive error : Type := MissingCreationTime.

Inductive result (A : Type) : Type :=
| Ok (a : A)
| Err (err : error).
Arguments Ok {A} a.
Arguments Err {A} err.

(** The metadata of a changeset as the test builds it:
    [&github.PullRequest{CreatedAt: t}], or anything else. *)
Inductive Metadata : Type :=
| GitHubPullRequest (CreatedAt : time.Time)
| OtherMetadata.

Record Changeset : Type := { ID : Z; Metadata_ : Metadata }.

(** Modelled from the spec: the method [ExternalCreatedAt] of
    [a8n.Changeset], which gives the "external creation timestamp", or the
    [MissingCreationTime] error when the metadata does not carry one. *)
Definition ExternalCreatedAt (c : Changeset) : result time.Time :=
  match Metadata_ c with
  | GitHubPullRequest createdAt => Ok createdAt
  | OtherMetadata => Err MissingCreationTime
  end.

End a8n.

(** ** [ChangesetCounts], [Event], [Events] *)

Record ChangesetCounts : Type := {
  Time : time.Time;
  Total : Z;
  Merged : Z;
  Closed : Z;
  Open : Z;
  OpenApproved : Z;
  OpenChangesRequested : Z;
  OpenPending : Z
}.

(** The interface [Event]: a value is what its three methods return.  A
    review event carries its state in metadata that the interface does not
    expose. *)
Record Event : Type := {
  Timestamp : time.Time;
  Type_ : a8n.ChangesetEventKind;
  Changeset : Z
}.

Abbreviation Events := (list Event).

(** [Events.Less], on two elements. *)
Definition Less (a b : Event) : bool :=
  time.Before (Timestamp a) (Timestamp b).

(** ** [sort.Sort(events)]

    The library routine permutes the slice into an order in which no element
    is [Less] than its predecessor; it is not stable, and which permutation it
    produces for equal timestamps depends on the length of the slice and on
    the Go release.  On slices of at most six elements, as in the tests,
    every release runs only [insertionSort], the one modelled here:
    [for i := a + 1; i < b; i++ { for j := i; j > a && data.Less(j, j-1); j-- { data.Swap(j, j-1) } }].
    [CalcCountsWith_sorter] shows that [CalcCounts] returns the same value for
    every routine that permutes its input. *)

(** The inner loop: [e] moves left past the elements it is [Less] than.
    [before] is the sorted prefix, last element first. *)
Fixpoint sinkLeft (e : Event) (before : Events) : Events :=
  match before with
  | [] => [e]
  | x :: before' =>
      if Less e x then x :: sinkLeft e before' else e :: x :: before'
  end.

Definition insertionSort (es : Events) : Events :=
  rev (foldl (fun before e => sinkLeft e before) [] es).

(** ** [CalcCounts] *)

(** A [*a8n.Changeset]: the address of a changeset on the heap.  Two equal
    pointers are one changeset; nil pointers, on which [c.ID] panics, are not
    modelled. *)
Abbreviation loc := positive.

(** [&ChangesetCounts{Time: t}] *)
Definition newCounts (t : time.Time) : ChangesetCounts :=
  {| Time := t; Total := 0; Merged := 0; Closed := 0; Open := 0;
     OpenApproved := 0; OpenChangesRequested := 0; OpenPending := 0 |}.

(** [count.Total++; count.Open++] *)
Definition opened (count : ChangesetCounts) : ChangesetCounts :=
  {| Time := Time count; Total := incr (Total count); Merged := Merged count;
     Closed := Closed count; Open := incr (Open count);
     OpenApproved := OpenApproved count;
     OpenChangesRequested := OpenChangesRequested count;
     OpenPending := OpenPending count |}.

(** The [switch e.Type()] of the innermost loop. *)
Definition applyKind (count : ChangesetCounts) (kind : a8n.ChangesetEventKind)
  : ChangesetCounts :=
  match kind with
  | a8n.ChangesetEventKindGitHubClosed =>
      {| Time := Time count; Total := Total count; Merged := Merged count;
         Closed := incr (Closed count); Open := decr (Open count);
         OpenApproved := OpenApproved count;
         OpenChangesRequested := OpenChangesRequested count;
         OpenPending := OpenPending count |}
  | a8n.ChangesetEventKindGitHubReopened =>
      {| Time := Time count; Total := Total count; Merged := Merged count;
         Closed := decr (Closed count); Open := incr (Open count);
         OpenApproved := OpenApproved count;
         OpenChangesRequested := OpenChangesRequested count;
         OpenPending := OpenPending count |}
  | a8n.ChangesetEventKindGitHubMerged =>
      {| Time := Time count; Total := Total count;
         Merged := incr (Merged count);
         Closed := Closed count; Open := decr (Open count);
         OpenApproved := OpenApproved count;
         OpenChangesRequested := OpenChangesRequested count;
         OpenPending := OpenPending count |}
  | _ => count
  end.

(** The body of [for _, e := range csEvents]. *)
Definition applyEvent (t : time.Time) (count : ChangesetCounts) (e : Event)
  : ChangesetCounts :=
  if time.After (Timestamp e) t then count else applyKind count (Type_ e).

(** The body of [for _, count := range counts], for a changeset opened at
    [openedAt] with events [csEvents]. *)
Definition countChangeset (openedAt : time.Time) (csEvents : Events)
    (count : ChangesetCounts) : ChangesetCounts :=
  let t := Time count in
  if time.Before openedAt t || time.Equal openedAt t
  then foldl (applyEvent t) (opened count) csEvents
  else count.

(** The inner loop of the grouping: the events of changeset [id], in the
    order of [events]. *)
Definition group (id : Z) (events : Events) : Events :=
  filter (fun e => Changeset e = id) events.

(** [byChangeset], a map keyed by pointer: a pointer listed twice in [cs]
    is one key. *)
Definition groupByChangeset (heap : loc -> a8n.Changeset) (cs : list loc)
    (events : Events) : gmap loc Events :=
  foldl (fun byChangeset c => <[c := group (a8n.ID (heap c)) events]> byChangeset)
        ∅ cs.

(** [for c, csEvents := range byChangeset], visiting the entries in the given
    order.  The counts are shared by all iterations; an error ends the run
    and returns no counts. *)
Fixpoint rangeByChangeset (heap : loc -> a8n.Changeset)
    (entries : list (loc * Events)) (counts : list ChangesetCounts)
  : a8n.result (list ChangesetCounts) :=
  match entries with
  | [] => a8n.Ok counts
  | (c, csEvents) :: entries' =>
      match a8n.ExternalCreatedAt (heap c) with
      | a8n.Err err => a8n.Err err
      | a8n.Ok openedAt =>
          rangeByChangeset heap entries' (map (countChangeset openedAt csEvents) counts)
      end
  end.

(** [CalcCounts] with the sorting routine as a parameter.  Go leaves the
    iteration order of a map unspecified; [map_to_list] fixes one, and
    [rangeByChangeset_Permutation] shows that every other order returns the
    same value. *)
Definition CalcCountsWith (sorter : Events -> Events)
    (heap : loc -> a8n.Changeset) (start end_ : time.Time) (cs : list loc)
    (es : Events) : a8n.result (list ChangesetCounts) :=
  let ts := generateTimestamps start end_ in
  let counts := map newCounts ts in
  let events := sorter es in
  let byChangeset := groupByChangeset heap cs events in
  rangeByChangeset heap (map_to_list byChangeset) counts.

Definition CalcCounts : (loc -> a8n.Changeset) -> time.Time -> time.Time ->
    list loc -> Events -> a8n.result (list ChangesetCounts) :=
  CalcCountsWith insertionSort.

(** ** The signature of a webhook payload

    [sign] is the helper of the GitHub webhook test.  It calls
    [crypto/hmac], [crypto/sha256] and [encoding/hex] of the Go library,
    which are modelled after their definitions (FIPS 180-4, RFC 2104) in the
    shape of the library code.  A [[]byte] is a [list byte]. *)

Definition byteZ (b : byte) : Z := Z.of_N (Byte.to_N b).

(** [byte(z)]: the low eight bits. *)
Definition Zbyte (z : Z) : byte :=
  match Byte.of_N (Z.to_N (z mod 256)) with Some b => b | None => x00 end.

Module sha256.

Definition BlockSize : nat := 64.

Definition uint32 (z : Z) : Z := z mod 2 ^ 32.

(** [bits.RotateLeft32(x, -k)] *)
Definition RotateRight32 (x k : Z) : Z :=
  uint32 (Z.lor (Z.shiftr x k) (Z.shiftl x (32 - k))).

(** The first 64 primes. *)
Definition primes : list Z := [
  2; 3; 5; 7; 11; 13; 17; 19; 23; 29; 31; 37; 41; 43; 47; 53; 59; 61; 67; 71;
  73; 79; 83; 89; 97; 101; 103; 107; 109; 113; 127; 131; 137; 139; 149; 151;
  157; 163; 167; 173; 179; 181; 191; 193; 197; 199; 211; 223; 227; 229; 233;
  239; 241; 251; 257; 263; 269; 271; 277; 281; 283; 293; 307; 311 ].

(** The greatest [r' >= r] with [r' ^ 3 <= x] that differs from [r] in the
    [n] lowest bits only. *)
Fixpoint cubeRoot (n : nat) (x r : Z) : Z :=
  match n with
  | O => r
  | S n' =>
      let r' := r + 2 ^ Z.of_nat n' in
      cubeRoot n' x (if r' ^ 3 <=? x then r' else r)
  end.

(** The round constants [_K]: the first 32 bits of the fractional parts of
    the cube roots of the first 64 primes. *)
Definition _K : list Z :=
  Eval vm_compute in map (fun p => uint32 (cubeRoot 36 (p * 2 ^ 96) 0)) primes.

(** The initial hash value [init0 .. init7]: the first 32 bits of the
    fractional parts of the square roots of the first 8 primes. *)
Definition init : list Z :=
  Eval vm_compute in map (fun p => uint32 (Z.sqrt (p * 2 ^ 64))) (take 8 primes).

(** The first sixteen words of the schedule, big endian:
    [w[i] = uint32(p[j])<<24 | uint32(p[j+1])<<16 | uint32(p[j+2])<<8 | uint32(p[j+3])]. *)
Fixpoint words (n : nat) (p : list byte) : list Z :=
  match n, p with
  | S n', b0 :: b1 :: b2 :: b3 :: p' =>
      Z.lor (Z.lor (Z.lor (Z.shiftl (byteZ b0) 24) (Z.shiftl (byteZ b1) 16))
                   (Z.shiftl (byteZ b2) 8))
            (byteZ b3)
      :: words n' p'
  | _, _ => []
  end.

(** [for i := 16; i < 64; i++]: [n] more words, each from the sixteen
    before it. *)
Fixpoint schedule (n : nat) (w : list Z) : list Z :=
  match n with
  | O => w
  | S n' =>
      let i := length w in
      let v1 := nth (i - 2) w 0 in
      let t1 := Z.lxor (Z.lxor (RotateRight32 v1 17) (RotateRight32 v1 19))
                       (Z.shiftr v1 10) in
      let v2 := nth (i - 15) w 0 in
      let t2 := Z.lxor (Z.lxor (RotateRight32 v2 7) (RotateRight32 v2 18))
                       (Z.shiftr v2 3) in
      schedule n' (w ++ [uint32 (t1 + nth (i - 7) w 0 + t2 + nth (i - 16) w 0)])
  end.

Record registers : Type :=
  Registers { a : Z; b : Z; c : Z; d : Z; e : Z; f : Z; g : Z; h : Z }.

(** One of the 64 rounds, with its constant [_K[i]] and word [w[i]]. *)
Definition round (r : registers) (kw : Z * Z) : registers :=
  let t1 := uint32 (h r
                    + Z.lxor (Z.lxor (RotateRight32 (e r) 6) (RotateRight32 (e r) 11))
                             (RotateRight32 (e r) 25)
                    + Z.lxor (Z.land (e r) (f r))
                             (Z.land (Z.lxor (e r) 0xffffffff) (g r))
                    + kw.1 + kw.2) in
  let t2 := uint32 (Z.lxor (Z.lxor (RotateRight32 (a r) 2) (RotateRight32 (a r) 13))
                           (RotateRight32 (a r) 22)
                    + Z.lxor (Z.lxor (Z.land (a r) (b r)) (Z.land (a r) (c r)))
                             (Z.land (b r) (c r))) in
  Registers (uint32 (t1 + t2)) (a r) (b r) (c r) (uint32 (d r + t1)) (e r) (f r) (g r).

(** The body of [blockGeneric] for one chunk of 64 bytes. *)
Definition block (hs : list Z) (p : list byte) : list Z :=
  let w := schedule 48 (words 16 p) in
  let r0 := Registers (nth 0 hs 0) (nth 1 hs 0) (nth 2 hs 0) (nth 3 hs 0)
                      (nth 4 hs 0) (nth 5 hs 0) (nth 6 hs 0) (nth 7 hs 0) in
  let r := foldl round r0 (zip _K w) in
  zip_with (fun x y => uint32 (x + y)) hs
           [a r; b r; c r; d r; e r; f r; g r; h r].

(** [for len(p) >= chunk], for the [n] chunks of [p]. *)
Fixpoint blockGeneric (n : nat) (hs : list Z) (p : list byte) : list Z :=
  match n with
  | O => hs
  | S n' => blockGeneric n' (block hs (take 64 p)) (drop 64 p)
  end.

(** [binary.BigEndian.PutUint32] and [PutUint64]. *)
Definition PutUint (bytes : nat) (v : Z) : list byte :=
  rev (map (fun k => Zbyte (Z.shiftr v (8 * Z.of_nat k))) (seq 0 bytes)).

(** What [checkSum] writes after a message of [len] bytes: the byte
    [0x80], zeros up to 56 bytes modulo 64, and the length in bits. *)
Definition padding (len : nat) : list byte :=
  let r := (len mod 64)%nat in
  let n := if (r <? 56)%nat then (56 - r)%nat else (64 + 56 - r)%nat in
  x80 :: replicate (n - 1) x00 ++ PutUint 8 (Z.shiftl (Z.of_nat len) 3).

(** The digest of everything written to a hash. *)
Definition Sum256 (data : list byte) : list byte :=
  let p := data ++ padding (length data) in
  concat (map (PutUint 4) (blockGeneric (length p / 64) init p)).

End sha256.

Module hex.

Definition hextable : string := "0123456789abcdef".

Definition digit (n : N) : ascii :=
  match String.get (N.to_nat n) hextable with
  | Some c => c
  | None => "0"%char
  end.

(** [dst[j] = hextable[v>>4]; dst[j+1] = hextable[v&0x0f]] for each [v]. *)
Fixpoint EncodeToString (src : list byte) : string :=
  match src with
  | [] => EmptyString
  | v :: src' =>
      String (digit (N.shiftr (Byte.to_N v) 4))
        (String (digit (N.land (Byte.to_N v) 0x0f)) (EncodeToString src'))
  end.

(** The value of a hexadecimal digit, [fromHexChar]. *)
Definition fromHexChar (c : ascii) : Z :=
  let n := Z.of_N (N_of_ascii c) in
  if (48 <=? n) && (n <=? 57) then n - 48
  else if (97 <=? n) && (n <=? 102) then n - 97 + 10
  else if (65 <=? n) && (n <=? 70) then n - 65 + 10
  else 0.

End hex.

Module hmac.

(** The state of an HMAC: the two pads, and the bytes written to the inner
    hash so far. *)
Record hmac : Type := { opad : list byte; ipad : list byte; inner : list byte }.

Definition xor (mask : Z) (x : byte) : byte := Zbyte (Z.lxor (byteZ x) mask).

(** The key as [New] copies it into the pads: hashed when longer than a
    block, then filled up with zeros. *)
Definition keyBlock (key : list byte) : list byte :=
  let key' := if (sha256.BlockSize <? length key)%nat
              then sha256.Sum256 key else key in
  key' ++ replicate (sha256.BlockSize - length key') x00.

(** [hmac.New(sha256.New, key)] *)
Definition New (key : list byte) : hmac :=
  let ipad := map (xor 0x36) (keyBlock key) in
  let opad := map (xor 0x5c) (keyBlock key) in
  {| opad := opad; ipad := ipad; inner := ipad |}.

(** [mac.Write(p)] *)
Definition Write (mac : hmac) (p : list byte) : hmac :=
  {| opad := opad mac; ipad := ipad mac; inner := inner mac ++ p |}.

(** [mac.Sum(in)] *)
Definition Sum (mac : hmac) (in_ : list byte) : list byte :=
  in_ ++ sha256.Sum256 (opad mac ++ sha256.Sum256 (inner mac)).

End hmac.

(** [sign] *)
Definition sign (message secret : list byte) : string :=
  let mac := hmac.New secret in
  let mac := hmac.Write mac message in
  ("sha256=" ++ hex.EncodeToString (hmac.Sum mac []))%string.

(** Modelled from the spec: the signature check of the webhook handler
    [GitHubWebhook.ServeHTTP].  It succeeds when the secret,
    "combined with the raw body through a keyed cryptographic digest (HMAC
    over SHA-256), reproduces the claimed signature exactly (hex-encoded,
    prefixed with the algorithm tag)". *)
Definition verify (body : list byte) (signature : string) (secret : list byte)
  : bool :=
  String.eqb signature (sign body secret).

(** HMAC-SHA256 as RFC 2104 writes it:
    [H((K xor opad) ++ H((K xor ipad) ++ text))]. *)
Definition HMAC_SHA256 (key text : list byte) : list byte :=
  sha256.Sum256 (map (hmac.xor 0x5c) (hmac.keyBlock key)
                 ++ sha256.Sum256 (map (hmac.xor 0x36) (hmac.keyBlock key) ++ text)).

(** The secret of the webhook test, the same secret followed by a zero byte,
    and a payload. *)
Definition testSecret : list byte := list_byte_of_string "secret".
Definition paddedSecret : list byte := testSecret ++ [x00].
Definition testBody : list byte := list_byte_of_string "{}".

(** The secret the "unauthorized" case of the webhook test signs with. *)
Definition testWrongSecret : list byte := list_byte_of_string "wrong-secret".

(** ** Notions used in the statements *)

(** The instants [t, t - 24h, ...], [n] of them. *)
Definition backwards (t : time.Time) (n : nat) : list time.Time :=
  map (fun k => t - Z.of_nat k * day) (seq 0 n).

(** The values of an [int32]. *)
Definition int32 (z : Z) : Prop := - 2 ^ 31 ≤ z < 2 ^ 31.

Definition inRange (c : ChangesetCounts) : Prop :=
  int32 (Total c) ∧ int32 (Merged c) ∧ int32 (Closed c) ∧ int32 (Open c) ∧
  int32 (OpenApproved c) ∧ int32 (OpenChangesRequested c) ∧
  int32 (OpenPending c).

(** Counter-wise [int32] addition of [b] to the snapshot [a]. *)
Definition plus (a b : ChangesetCounts) : ChangesetCounts :=
  {| Time := Time a;
     Total := add32 (Total a) (Total b);
     Merged := add32 (Merged a) (Merged b);
     Closed := add32 (Closed a) (Closed b);
     Open := add32 (Open a) (Open b);
     OpenApproved := add32 (OpenApproved a) (OpenApproved b);
     OpenChangesRequested :=
       add32 (OpenChangesRequested a) (OpenChangesRequested b);
     OpenPending := add32 (OpenPending a) (OpenPending b) |}.

(** The snapshot at [t] whose counters are the [int32] sums of those in
    [l]. *)
Definition total (t : time.Time) (l : list ChangesetCounts) : ChangesetCounts :=
  foldl plus (newCounts t) l.

(** What the changeset at [c] adds to the snapshot at [t] when its events
    are taken from [events]: the loop body run on a fresh snapshot. *)
Definition contribution (heap : loc -> a8n.Changeset) (events : Events)
    (t : time.Time) (c : loc) : ChangesetCounts :=
  match a8n.ExternalCreatedAt (heap c) with
  | a8n.Ok openedAt =>
      countChangeset openedAt (group (a8n.ID (heap c)) events) (newCounts t)
  | a8n.Err _ => newCounts t
  end.

(** Every changeset of [cs] has an external creation timestamp. *)
Definition allCreated (heap : loc -> a8n.Changeset) (cs : list loc) : Prop :=
  Forall (fun c => ∃ openedAt, a8n.ExternalCreatedAt (heap c) = a8n.Ok openedAt) cs.

(** The entries of [byChangeset] for the pointers [ps]. *)
Definition entriesOf (heap : loc -> a8n.Changeset) (events : Events)
    (ps : list loc) : list (loc * Events) :=
  map (fun c => (c, group (a8n.ID (heap c)) events)) ps.

(** What the changeset at [c] adds to the snapshot at [t] under "on or
    before" semantics, in the words of the specification: nothing when it was
    opened after [t]; otherwise one to [Total] and [Open], and then the effect
    of each of its events whose timestamp is at most [t].  Its events are
    those of [events] that carry its ID; the definition names them itself and
    does not go through the grouping of [CalcCounts]. *)
Definition onOrBefore (heap : loc -> a8n.Changeset) (events : Events)
    (t : time.Time) (c : loc) : ChangesetCounts :=
  match a8n.ExternalCreatedAt (heap c) with
  | a8n.Ok openedAt =>
      if openedAt <=? t
      then foldl applyKind
             {| Time := t; Total := 1; Merged := 0; Closed := 0; Open := 1;
                OpenApproved := 0; OpenChangesRequested := 0; OpenPending := 0 |}
             (map Type_
                (filter (fun e => Changeset e = a8n.ID (heap c) ∧
                                  Timestamp e ≤ t)
                        events))
      else newCounts t
  | a8n.Err _ => newCounts t
  end.

(** [Open + Closed + Merged] and [Total] agree up to a multiple of [2^32]. *)
Definition balanced (c : ChangesetCounts) : Prop :=
  ∃ k, Open c + Closed c + Merged c = Total c + k * 2 ^ 32.

(** None of the three review counters counts anything. *)
Definition unreviewed (c : ChangesetCounts) : Prop :=
  OpenApproved c = 0 ∧ OpenChangesRequested c = 0 ∧ OpenPending c = 0.

(** The four state counters are at most [bound] in absolute value. *)
Definition within (bound : Z) (c : ChangesetCounts) : Prop :=
  Z.abs (Total c) ≤ bound ∧ Z.abs (Merged c) ≤ bound ∧
  Z.abs (Closed c) ≤ bound ∧ Z.abs (Open c) ≤ bound.

(** [Open + Closed + Merged = Total] over the integers. *)
Definition exact (c : ChangesetCounts) : Prop :=
  Open c + Closed c + Merged c = Total c.

(** ** The fixtures of [TestCalcCounts] *)

(** [time.Now()], fixed to some instant. *)
Definition now : time.Time := 1570000000000000000.

(** [now.AddDate(0, 0, -days)], with days of 24 hours. *)
Definition daysAgo (days : Z) : time.Time := time.Add now (- days * day).

(** [&a8n.Changeset{ID: id, Metadata: &github.PullRequest{CreatedAt: t}}] *)
Definition ghChangesetCreated (id : Z) (t : time.Time) : a8n.Changeset :=
  {| a8n.ID := id; a8n.Metadata_ := a8n.GitHubPullRequest t |}.

Definition fakeEvent (t : time.Time) (kind : a8n.ChangesetEventKind) (id : Z)
  : Event :=
  {| Timestamp := t; Type_ := kind; Changeset := id |}.

(** Modelled from the spec: the [*a8n.ChangesetEvent] of a review, seen
    through the interface [Event]; its timestamp is "the review's update
    time".  The state of the review ([APPROVED], ...) is metadata that no
    method of [Event] returns. *)
Definition reviewedEvent (changesetID : Z) (updatedAt : time.Time) : Event :=
  {| Timestamp := updatedAt; Type_ := a8n.ChangesetEventKindGitHubReviewed;
     Changeset := changesetID |}.

(** A heap holding the given changesets at the addresses 1, 2, ...; every
    other address holds a changeset without creation timestamp. *)
Definition heapOf (objs : list a8n.Changeset) (c : loc) : a8n.Changeset :=
  default {| a8n.ID := 0; a8n.Metadata_ := a8n.OtherMetadata |}
          (objs !! (Pos.to_nat c - 1)%nat).

(** ** The methods of [Events] and the sorting loop that calls them

    [sort.Sort] reaches the slice through [Len], [Swap] and [Less] only.  An
    index outside the slice makes the Go code panic: the result is [None]. *)

Module Events.

(** [func (es Events) Len() int] *)
Definition Len (es : list Event) : nat := length es.

(** [func (es Events) Swap(i, j int)]: [es[i], es[j] = es[j], es[i]] *)
Definition Swap (es : list Event) (i j : nat) : option (list Event) :=
  match es !! i, es !! j with
  | Some a, Some b => Some (<[j:=a]> (<[i:=b]> es))
  | _, _ => None
  end.

(** [func (es Events) Less(i, j int) bool]:
    [es[i].Timestamp().Before(es[j].Timestamp())] *)
Definition Less (es : list Event) (i j : nat) : option bool :=
  match es !! i, es !! j with
  | Some a, Some b => Some (time.Before (Timestamp a) (Timestamp b))
  | _, _ => None
  end.

End Events.

(** The inner loop of the library's [insertionSort]:
    [for j := i; j > a && data.Less(j, j-1); j-- { data.Swap(j, j-1) }],
    with [a = 0]. *)
Fixpoint sinkInPlace (es : Events) (j : nat) : option Events :=
  match j with
  | O => Some es
  | S j' =>
      match Events.Less es j j' with
      | None => None
      | Some false => Some es
      | Some true =>
          match Events.Swap es j j' with
          | None => None
          | Some es' => sinkInPlace es' j'
          end
      end
  end.

(** The outer loop, [for i := a + 1; i < b; i++], with [a = 0] and
    [b = data.Len()]. *)
Definition insertionSortInPlace (es : Events) : option Events :=
  foldl (fun state i => match state with
                        | Some es' => sinkInPlace es' i
                        | None => None
                        end)
        (Some es) (seq 1 (Events.Len es - 1)).

(** ** [ChangesetCounts.String] *)

(** The verb [%d] of [fmt.Sprintf]: the decimal digits of the number, after
    a minus sign when it is negative. *)
Definition formatInt (z : Z) : string := NilZero.string_of_int (Z.to_int z).

Module ChangesetCounts.

(** The method [String] of [ChangesetCounts]; [timeString] stands for
    [time.Time.String]. *)
Definition String (timeString : time.Time -> string) (cc : ChangesetCounts)
  : string :=
  (timeString (Time cc)
   ++ " (Total: " ++ formatInt (Total cc)
   ++ ", Merged: " ++ formatInt (Merged cc)
   ++ ", Closed: " ++ formatInt (Closed cc)
   ++ ", Open: " ++ formatInt (Open cc)
   ++ ", OpenApproved: " ++ formatInt (OpenApproved cc)
   ++ ", OpenChangesRequested: " ++ formatInt (OpenChangesRequested cc)
   ++ ", OpenPending: " ++ formatInt (OpenPending cc)
   ++ ")")%string.

End ChangesetCounts.

(** A decimal digit or the minus sign. *)
Definition isNumeral (c : ascii) : bool :=
  let n := N_of_ascii c in
  ((n =? 45) || (48 <=? n) && (n <=? 57))%N.

Fixpoint allNumeral (s : string) : Prop :=
  match s with
  | EmptyString => True
  | String.String c s' => isNumeral c = true ∧ allNumeral s'
  end.

(** ** Notions used in the further properties *)

#[global] Instance ChangesetEventKind_eq_dec : EqDecision a8n.ChangesetEventKind.
Proof. solve_decision. Defined.

(** A kind for which the [switch] of [CalcCounts] has no case. *)
Definition unhandled (kind : a8n.ChangesetEventKind) : Prop :=
  kind ≠ a8n.ChangesetEventKindGitHubClosed ∧
  kind ≠ a8n.ChangesetEventKindGitHubReopened ∧
  kind ≠ a8n.ChangesetEventKindGitHubMerged.

(** The sum of a list of integers. *)
Definition Zsum (l : list Z) : Z := foldr Z.add 0 l.

(** The changeset at [c] was opened at or before [t]. *)
Definition openedBy (heap : loc -> a8n.Changeset) (t : time.Time) (c : loc)
  : Prop :=
  ∃ openedAt, a8n.ExternalCreatedAt (heap c) = a8n.Ok openedAt ∧ openedAt ≤ t.

#[global] Instance openedBy_dec heap t c : Decision (openedBy heap t c).
Proof.
  unfold openedBy. destruct (a8n.ExternalCreatedAt (heap c)) as [openedAt|err].
  - destruct (decide (openedAt ≤ t)) as [Hle|Hgt].
    + left. now exists openedAt.
    + right. intros (o & [= <-] & Hle). contradiction.
  - right. intros (o & Ho & _). discriminate.
Defined.

(** The number of events of [events] that belong to changeset [id], are of
    the given kind and have a timestamp at or before [t]; an event that
    occurs several times is counted as often. *)
Definition occurrences (kind : a8n.ChangesetEventKind) (t : time.Time)
    (id : Z) (events : Events) : Z :=
  Z.of_nat (length (filter (fun e => Type_ e = kind ∧ Timestamp e ≤ t)
                           (group id events))).

(** A character of [hex.hextable]. *)
Definition isHexDigit (c : ascii) : bool :=
  existsb (Ascii.eqb c) (list_ascii_of_string hex.hextable).

(** * Properties *)

(** ** The two loops of [generateTimestamps] *)

Lemma day_eq : day = 86400000000000.
Proof. reflexivity. Qed.

Lemma swap_length ts i j : length (swap ts i j) = length ts.
Proof.
  unfold swap. destruct (ts !! i), (ts !! j); trivial.
  now rewrite !length_insert.
Qed.

Lemma swap_lookup ts i j k :
  (i < length ts)%nat → (j < length ts)%nat →
  swap ts i j !! k =
    if decide (k = j) then ts !! i
    else if decide (k = i) then ts !! j
    else ts !! k.
Proof.
  intros Hi Hj. unfold swap.
  destruct (lookup_lt_is_Some_2 ts i Hi) as [a Ha].
  destruct (lookup_lt_is_Some_2 ts j Hj) as [b Hb].
  rewrite Ha, Hb.
  destruct (decide (k = j)) as [->|Hkj].
  - rewrite list_lookup_insert_eq; [done|]. now rewrite length_insert.
  - rewrite list_lookup_insert_ne by congruence.
    destruct (decide (k = i)) as [->|Hki].
    + now rewrite list_lookup_insert_eq.
    + now rewrite list_lookup_insert_ne by congruence.
Qed.

Lemma reverseFrom_length n ts : length (reverseFrom n ts) = length ts.
Proof.
  revert ts. induction n as [|n IH]; intros ts; simpl; [done|].
  now rewrite IH, swap_length.
Qed.

(** After the iterations [i = n-1, ..., 0] exactly the positions at distance
    less than [n] from either end have been exchanged with their mirror
    image. *)
Lemma reverseFrom_lookup n ts k :
  (n ≤ length ts / 2)%nat → (k < length ts)%nat →
  reverseFrom n ts !! k =
    if decide (k < n ∨ length ts - 1 - k < n)%nat
    then ts !! (length ts - 1 - k)%nat
    else ts !! k.
Proof.
  revert ts. induction n as [|n IH]; intros ts Hn Hk; cbn [reverseFrom].
  - case_decide; [lia|done].
  - assert (Hhalf : (2 * (length ts / 2) ≤ length ts)%nat)
      by (apply Nat.Div0.mul_div_le).
    rewrite IH; rewrite ?swap_length; [|lia|lia].
    rewrite !swap_lookup by lia.
    repeat case_decide; try lia; try done; f_equal; lia.
Qed.

Lemma reverseInPlace_rev ts : reverseInPlace ts = rev ts.
Proof.
  unfold reverseInPlace. apply list_eq. intros k.
  destruct (decide (k < length ts)%nat) as [Hk|Hk].
  - rewrite reverseFrom_lookup by lia.
    replace (rev ts) with (reverse ts)
      by (unfold reverse; symmetry; apply rev_alt).
    rewrite reverse_lookup by lia.
    assert (Hdiv := Nat.div_mod_eq (length ts) 2).
    assert (Hmod := Nat.mod_upper_bound (length ts) 2).
    case_decide; f_equal; lia.
  - rewrite !lookup_ge_None_2; [done| |].
    + rewrite length_rev. lia.
    + rewrite reverseFrom_length. lia.
Qed.

(** [samples] counts the instants the first loop visits: none when the walk
    starts before [start], one more than from a day earlier otherwise. *)
Lemma samples_before start t : t < start → samples start t = O.
Proof.
  intros Hlt. unfold samples. rewrite day_eq.
  assert ((t - start) / 86400000000000 < 0) by (apply Z.div_lt_upper_bound; lia).
  lia.
Qed.

Lemma samples_step start t :
  start ≤ t → samples start t = S (samples start (t - day)).
Proof.
  intros Hle. unfold samples. rewrite day_eq.
  replace (t - 86400000000000 - start) with (t - start + (-1) * 86400000000000) by lia.
  rewrite Z.div_add by lia.
  assert (0 ≤ (t - start) / 86400000000000) by (apply Z.div_pos; lia).
  lia.
Qed.

Lemma backwards_S t n : backwards t (S n) = t :: backwards (t - day) n.
Proof.
  unfold backwards. cbn [seq map]. f_equal; [lia|].
  rewrite <- seq_shift, map_map. apply map_ext. intros k. lia.
Qed.

Lemma walkBackwards_spec fuel start t ts :
  walkBackwards fuel start t ts
  = ts ++ backwards t (Nat.min fuel (samples start t)).
Proof.
  revert t ts. induction fuel as [|fuel IH]; intros t ts; cbn [walkBackwards].
  - now rewrite app_nil_r.
  - unfold time.After, time.Equal, time.Add.
    destruct (Z.ltb_spec start t) as [Hlt|Hge]; cbn [orb].
    + rewrite IH, (samples_step start t) by lia.
      change (-24 * time.Hour) with (- day).
      cbn [Nat.min]. rewrite backwards_S, <- app_assoc.
      now replace (t + - day) with (t - day) by lia.
    + destruct (Z.eqb_spec t start) as [Heq|Hne].
      * rewrite IH, (samples_step start t) by lia.
        change (-24 * time.Hour) with (- day).
        cbn [Nat.min]. rewrite backwards_S, <- app_assoc.
        now replace (t + - day) with (t - day) by lia.
      * rewrite samples_before by lia. now rewrite Nat.min_0_r, app_nil_r.
Qed.

(** The bound on the iterations is never what stops the first loop: any
    larger bound gives the same slice. *)
Lemma walkBackwards_fuel fuel start end_ :
  (samples start end_ ≤ fuel)%nat →
  walkBackwards fuel start end_ []
  = walkBackwards (samples start end_) start end_ [].
Proof.
  intros Hle. rewrite !walkBackwards_spec. f_equal. f_equal. lia.
Qed.

Lemma generateTimestamps_spec start end_ :
  generateTimestamps start end_ = rev (backwards end_ (samples start end_)).
Proof.
  unfold generateTimestamps.
  now rewrite reverseInPlace_rev, walkBackwards_spec, Nat.min_id.
Qed.

Lemma generateTimestamps_length start end_ :
  length (generateTimestamps start end_) = samples start end_.
Proof.
  rewrite generateTimestamps_spec, length_rev. unfold backwards.
  now rewrite length_map, length_seq.
Qed.

Lemma generateTimestamps_lookup start end_ i t :
  generateTimestamps start end_ !! i = Some t ↔
  (i < samples start end_)%nat ∧
  t = end_ - Z.of_nat (samples start end_ - 1 - i) * day.
Proof.
  rewrite generateTimestamps_spec.
  replace (rev (backwards end_ (samples start end_)))
    with (reverse (backwards end_ (samples start end_)))
    by (unfold reverse; symmetry; apply rev_alt).
  assert (Hlen : length (backwards end_ (samples start end_)) = samples start end_)
    by (unfold backwards; now rewrite length_map, length_seq).
  split.
  - intros Hi. assert (i < samples start end_)%nat as Hlt.
    { apply lookup_lt_Some in Hi. now rewrite length_reverse, Hlen in Hi. }
    split; [done|]. rewrite reverse_lookup in Hi by lia.
    rewrite Hlen in Hi. unfold backwards in Hi.
    rewrite list_lookup_fmap, lookup_seq_lt in Hi by lia.
    cbn in Hi. inversion Hi. f_equal. f_equal. lia.
  - intros [Hlt ->]. rewrite reverse_lookup by lia.
    rewrite Hlen. unfold backwards.
    rewrite list_lookup_fmap, lookup_seq_lt by lia.
    cbn. f_equal. f_equal. f_equal. lia.
Qed.

Lemma generateTimestamps_empty start end_ :
  end_ < start → generateTimestamps start end_ = [].
Proof.
  intros Hlt. apply length_zero_iff_nil.
  rewrite generateTimestamps_length. now apply samples_before.
Qed.

(** ** [int32] arithmetic *)

Lemma wrap32_range z : int32 (wrap32 z).
Proof.
  unfold int32, wrap32.
  assert (0 ≤ (z + 2 ^ 31) mod 2 ^ 32 < 2 ^ 32) by (apply Z.mod_pos_bound; lia).
  lia.
Qed.

Lemma wrap32_id z : int32 z → wrap32 z = z.
Proof.
  unfold int32, wrap32. intros Hz.
  rewrite Z.mod_small; lia.
Qed.

Lemma wrap32_shift z k : wrap32 (z + k * 2 ^ 32) = wrap32 z.
Proof.
  unfold wrap32. f_equal.
  replace (z + k * 2 ^ 32 + 2 ^ 31) with (z + 2 ^ 31 + k * 2 ^ 32) by lia.
  apply Z_mod_plus_full.
Qed.

Lemma wrap32_multiple z : ∃ k, wrap32 z = z + k * 2 ^ 32.
Proof.
  exists (- ((z + 2 ^ 31) / 2 ^ 32)). unfold wrap32.
  rewrite Z.mod_eq by lia. lia.
Qed.

Lemma wrap32_wrap_l x y : wrap32 (wrap32 x + y) = wrap32 (x + y).
Proof.
  destruct (wrap32_multiple x) as [k ->].
  replace (x + k * 2 ^ 32 + y) with (x + y + k * 2 ^ 32) by lia.
  apply wrap32_shift.
Qed.

Lemma wrap32_wrap_r x y : wrap32 (x + wrap32 y) = wrap32 (x + y).
Proof. rewrite Z.add_comm, wrap32_wrap_l. f_equal. lia. Qed.

Lemma wrap32_wrap_sub x y : wrap32 (wrap32 x - y) = wrap32 (x - y).
Proof. apply (wrap32_wrap_l x (- y)). Qed.

(** Normalises a goal between [int32] expressions: the inner wrap-arounds
    are absorbed by the outer one, what remains is linear arithmetic. *)
Ltac wrap32_arith :=
  unfold incr, decr, add32;
  rewrite ?wrap32_wrap_l, ?wrap32_wrap_r, ?wrap32_wrap_sub;
  try reflexivity; try (f_equal; lia).

Lemma counts_eq a b :
  Time a = Time b → Total a = Total b → Merged a = Merged b →
  Closed a = Closed b → Open a = Open b → OpenApproved a = OpenApproved b →
  OpenChangesRequested a = OpenChangesRequested b →
  OpenPending a = OpenPending b → a = b.
Proof. destruct a, b; cbn; intros; subst; reflexivity. Qed.

(** ** Snapshots under [plus] *)

(** Splits [inRange c] into its seven counters and closes those that are a
    hypothesis or a wrapped value. *)
Ltac inRange_split :=
  unfold inRange; cbn;
  refine (conj _ (conj _ (conj _ (conj _ (conj _ (conj _ _))))));
  first [assumption | apply wrap32_range].

Lemma newCounts_inRange t : inRange (newCounts t).
Proof. unfold inRange, int32; cbn. lia. Qed.

Lemma plus_inRange a b : inRange (plus a b).
Proof. unfold plus, add32. inRange_split. Qed.

Lemma plus_Time a b : Time (plus a b) = Time a.
Proof. reflexivity. Qed.

Lemma plus_assoc a b c : plus (plus a b) c = plus a (plus b c).
Proof. apply counts_eq; cbn; wrap32_arith. Qed.

Lemma plus_swap a b c : plus (plus a b) c = plus (plus a c) b.
Proof. apply counts_eq; cbn; wrap32_arith. Qed.

Lemma plus_newCounts a t : inRange a → plus a (newCounts t) = a.
Proof.
  intros (?&?&?&?&?&?&?). apply counts_eq; cbn; trivial;
    unfold add32; rewrite Z.add_0_r; now apply wrap32_id.
Qed.

Lemma newCounts_plus a : inRange a → plus (newCounts (Time a)) a = a.
Proof.
  intros (?&?&?&?&?&?&?). apply counts_eq; cbn; trivial;
    unfold add32; now apply wrap32_id.
Qed.

Lemma total_Time t l : Time (total t l) = t.
Proof.
  unfold total.
  assert (∀ c, Time (foldl plus c l) = Time c) as H; [|apply H].
  induction l as [|x l IH]; intros c; cbn; [done|].
  now rewrite IH.
Qed.

Lemma total_inRange t l : inRange (total t l).
Proof.
  unfold total. generalize (newCounts t) (newCounts_inRange t).
  induction l as [|x l IH]; intros c Hc; cbn; [done|].
  apply IH, plus_inRange.
Qed.

Lemma foldl_plus_Permutation c l l' :
  l ≡ₚ l' → foldl plus c l = foldl plus c l'.
Proof.
  intros Hp. revert c. induction Hp; intros c; cbn.
  - reflexivity.
  - apply IHHp.
  - now rewrite plus_swap.
  - now rewrite IHHp1.
Qed.

Lemma foldl_plus_out c l :
  inRange c → foldl plus c l = plus c (total (Time c) l).
Proof.
  unfold total. intros Hc. revert c Hc.
  induction l as [|x l IH] using rev_ind; intros c Hc; cbn.
  - now rewrite plus_newCounts.
  - rewrite !foldl_app; cbn. rewrite IH by done. apply plus_assoc.
Qed.

(** ** The loop body for one changeset and one snapshot *)

Lemma applyKind_Time c k : Time (applyKind c k) = Time c.
Proof. now destruct k. Qed.

Lemma applyEvent_Time t c e : Time (applyEvent t c e) = Time c.
Proof. unfold applyEvent. destruct (time.After _ _); [done|apply applyKind_Time]. Qed.

Lemma applyKind_inRange c k : inRange c → inRange (applyKind c k).
Proof.
  intros (?&?&?&?&?&?&?).
  destruct k; unfold incr, decr; inRange_split.
Qed.

Lemma applyEvent_inRange t c e : inRange c → inRange (applyEvent t c e).
Proof.
  unfold applyEvent. destruct (time.After _ _); [done|apply applyKind_inRange].
Qed.

Lemma opened_inRange c : inRange c → inRange (opened c).
Proof.
  intros (?&?&?&?&?&?&?). unfold opened, incr. inRange_split.
Qed.

Lemma foldl_applyEvent_Time t evs c : Time (foldl (applyEvent t) c evs) = Time c.
Proof.
  revert c. induction evs as [|e evs IH]; intros c; cbn; [done|].
  now rewrite IH, applyEvent_Time.
Qed.

Lemma foldl_applyEvent_inRange t evs c :
  inRange c → inRange (foldl (applyEvent t) c evs).
Proof.
  revert c. induction evs as [|e evs IH]; intros c Hc; cbn; [done|].
  now apply IH, applyEvent_inRange.
Qed.

Lemma countChangeset_Time openedAt evs c :
  Time (countChangeset openedAt evs c) = Time c.
Proof.
  unfold countChangeset. destruct (_ || _); [|done].
  now rewrite foldl_applyEvent_Time.
Qed.

Lemma countChangeset_inRange openedAt evs c :
  inRange c → inRange (countChangeset openedAt evs c).
Proof.
  intros Hc. unfold countChangeset. destruct (_ || _); [|done].
  now apply foldl_applyEvent_inRange, opened_inRange.
Qed.

(** Each step adds a fixed amount to the counters it finds. *)
Lemma applyKind_plus c k :
  inRange c → applyKind c k = plus c (applyKind (newCounts (Time c)) k).
Proof.
  intros Hc. destruct k; cbn [applyKind];
    try (now rewrite plus_newCounts);
    destruct Hc as (?&?&?&?&?&?&?);
    apply counts_eq; cbn; trivial;
    try (unfold add32; rewrite Z.add_0_r; symmetry; now apply wrap32_id);
    wrap32_arith.
Qed.

Lemma applyEvent_plus t c e :
  inRange c → applyEvent t c e = plus c (applyEvent t (newCounts (Time c)) e).
Proof.
  intros Hc. unfold applyEvent. destruct (time.After _ _).
  - now rewrite plus_newCounts.
  - now apply applyKind_plus.
Qed.

Lemma opened_plus c :
  inRange c → opened c = plus c (opened (newCounts (Time c))).
Proof.
  intros (?&?&?&?&?&?&?). apply counts_eq; cbn; trivial;
    try (unfold add32; rewrite Z.add_0_r; symmetry; now apply wrap32_id);
    wrap32_arith.
Qed.

Lemma foldl_applyEvent_plus t evs c :
  inRange c →
  foldl (applyEvent t) c evs
  = plus c (foldl (applyEvent t) (newCounts (Time c)) evs).
Proof.
  intros Hc. revert c Hc.
  induction evs as [|e evs IH] using rev_ind; intros c Hc; cbn.
  - now rewrite plus_newCounts.
  - rewrite !foldl_app; cbn [foldl].
    rewrite applyEvent_plus by now apply foldl_applyEvent_inRange.
    rewrite foldl_applyEvent_Time.
    rewrite (applyEvent_plus t (foldl _ (newCounts _) _))
      by apply foldl_applyEvent_inRange, newCounts_inRange.
    rewrite foldl_applyEvent_Time. cbn [newCounts Time].
    rewrite IH by done. apply plus_assoc.
Qed.

Lemma countChangeset_plus openedAt evs c :
  inRange c →
  countChangeset openedAt evs c
  = plus c (countChangeset openedAt evs (newCounts (Time c))).
Proof.
  intros Hc. unfold countChangeset. cbv zeta. cbn [newCounts Time].
  destruct (_ || _); [|now rewrite plus_newCounts].
  rewrite foldl_applyEvent_plus by now apply opened_inRange.
  rewrite (foldl_applyEvent_plus (Time c) evs (opened (newCounts _)))
    by apply opened_inRange, newCounts_inRange.
  cbn [opened newCounts Time].
  rewrite (opened_plus c) at 1 by done. apply plus_assoc.
Qed.

(** The events of a changeset may be applied in any order. *)
Lemma foldl_applyEvent_Permutation t evs evs' c :
  inRange c → evs ≡ₚ evs' →
  foldl (applyEvent t) c evs = foldl (applyEvent t) c evs'.
Proof.
  intros Hc Hp. revert c Hc. induction Hp; intros c Hc; cbn.
  - reflexivity.
  - now apply IHHp, applyEvent_inRange.
  - f_equal.
    rewrite (applyEvent_plus t (applyEvent t c y)) by now apply applyEvent_inRange.
    rewrite (applyEvent_plus t (applyEvent t c x)) by now apply applyEvent_inRange.
    rewrite !applyEvent_Time.
    rewrite (applyEvent_plus t c y), (applyEvent_plus t c x) by done.
    apply plus_swap.
  - now rewrite IHHp1, IHHp2.
Qed.

Lemma countChangeset_Permutation openedAt evs evs' c :
  inRange c → evs ≡ₚ evs' →
  countChangeset openedAt evs c = countChangeset openedAt evs' c.
Proof.
  intros Hc Hp. unfold countChangeset. destruct (_ || _); [|done].
  now apply foldl_applyEvent_Permutation; [apply opened_inRange|].
Qed.

(** ** The loop over [byChangeset] *)

(** One changeset without a creation timestamp makes the loop fail, wherever
    its entry comes in the iteration. *)
Lemma rangeByChangeset_missing heap entries counts :
  Exists (fun en => ∀ openedAt,
            a8n.ExternalCreatedAt (heap en.1) ≠ a8n.Ok openedAt) entries →
  rangeByChangeset heap entries counts = a8n.Err a8n.MissingCreationTime.
Proof.
  intros Hex. revert counts.
  induction entries as [|[c evs] entries IH]; intros counts; cbn.
  - inversion Hex.
  - destruct (a8n.ExternalCreatedAt (heap c)) as [openedAt|[]] eqn:Hc; [|done].
    apply IH. inversion Hex as [? ? Hhd|]; subst; [|done].
    cbn in Hhd. now destruct (Hhd openedAt).
Qed.

Lemma contribution_created heap events t p openedAt :
  a8n.ExternalCreatedAt (heap p) = a8n.Ok openedAt →
  contribution heap events t p
  = countChangeset openedAt (group (a8n.ID (heap p)) events) (newCounts t).
Proof. intros Hp. unfold contribution. now rewrite Hp. Qed.

Lemma contribution_Time heap events t p :
  Time (contribution heap events t p) = t.
Proof.
  unfold contribution. destruct (a8n.ExternalCreatedAt _); [|done].
  now rewrite countChangeset_Time.
Qed.

Lemma contribution_inRange heap events t p :
  inRange (contribution heap events t p).
Proof.
  unfold contribution. destruct (a8n.ExternalCreatedAt _).
  - apply countChangeset_inRange, newCounts_inRange.
  - apply newCounts_inRange.
Qed.

Lemma total_cons t x l :
  inRange x → Time x = t → total t (x :: l) = plus x (total t l).
Proof.
  intros Hx Ht. unfold total. cbn [foldl]. subst t.
  rewrite newCounts_plus by done. now apply foldl_plus_out.
Qed.

Lemma rangeByChangeset_created heap events ps counts :
  allCreated heap ps → Forall inRange counts →
  rangeByChangeset heap (entriesOf heap events ps) counts
  = a8n.Ok (map (fun c => plus c (total (Time c)
                                     (map (contribution heap events (Time c)) ps)))
                counts).
Proof.
  intros Hps. revert counts.
  induction Hps as [|p ps [openedAt Hp] Hps IH]; intros counts Hcounts;
    cbn [entriesOf map rangeByChangeset].
  - f_equal. rewrite <- (map_id counts) at 1. apply map_ext_Forall.
    eapply Forall_impl; [exact Hcounts|]. intros c Hc. cbn.
    now rewrite plus_newCounts.
  - rewrite Hp. fold (entriesOf heap events ps). rewrite IH.
    + f_equal. rewrite map_map. apply map_ext_Forall.
      eapply Forall_impl; [exact Hcounts|]. intros c Hc. cbn beta.
      rewrite countChangeset_Time.
      rewrite total_cons
        by (apply contribution_inRange || apply contribution_Time).
      rewrite (contribution_created _ _ _ _ _ Hp).
      rewrite (countChangeset_plus _ _ c) by done. apply plus_assoc.
    + apply Forall_fmap. eapply Forall_impl; [exact Hcounts|].
      intros c Hc. now apply countChangeset_inRange.
Qed.

Lemma countChangeset_comm o1 evs1 o2 evs2 c :
  inRange c →
  countChangeset o1 evs1 (countChangeset o2 evs2 c)
  = countChangeset o2 evs2 (countChangeset o1 evs1 c).
Proof.
  intros Hc.
  rewrite (countChangeset_plus o1 evs1 (countChangeset o2 evs2 c))
    by now apply countChangeset_inRange.
  rewrite (countChangeset_plus o2 evs2 (countChangeset o1 evs1 c))
    by now apply countChangeset_inRange.
  rewrite !countChangeset_Time.
  rewrite (countChangeset_plus o2 evs2 c), (countChangeset_plus o1 evs1 c) by done.
  apply plus_swap.
Qed.

(** Go does not fix the order in which a map is iterated; the loop returns
    the same value for every order. *)
Lemma rangeByChangeset_Permutation heap entries entries' counts :
  entries ≡ₚ entries' → Forall inRange counts →
  rangeByChangeset heap entries counts = rangeByChangeset heap entries' counts.
Proof.
  intros Hp. revert counts.
  induction Hp as [|[c evs] l l' Hp IH|[c1 evs1] [c2 evs2] l|l l' l'' Hp1 IH1 Hp2 IH2];
    intros counts Hcounts; cbn [rangeByChangeset].
  - reflexivity.
  - destruct (a8n.ExternalCreatedAt (heap c)) as [openedAt|err]; [|done].
    apply IH, Forall_fmap. eapply Forall_impl; [exact Hcounts|].
    intros x Hx. now apply countChangeset_inRange.
  - destruct (a8n.ExternalCreatedAt (heap c1)) as [o1|[]],
             (a8n.ExternalCreatedAt (heap c2)) as [o2|[]]; try done.
    f_equal. rewrite !map_map. apply map_ext_Forall.
    eapply Forall_impl; [exact Hcounts|]. intros x Hx.
    now apply countChangeset_comm.
  - now rewrite IH1, IH2.
Qed.

(** ** The map [byChangeset] *)

Lemma groupByChangeset_lookup heap cs events p :
  groupByChangeset heap cs events !! p
  = if decide (p ∈ cs) then Some (group (a8n.ID (heap p)) events) else None.
Proof.
  unfold groupByChangeset.
  assert (∀ m : gmap loc Events,
    foldl (fun byChangeset c => <[c := group (a8n.ID (heap c)) events]> byChangeset) m cs !! p
    = if decide (p ∈ cs) then Some (group (a8n.ID (heap p)) events) else m !! p) as H.
  { induction cs as [|c cs IH]; intros m; cbn [foldl].
    - case_decide as Hin; [by apply elem_of_nil in Hin|done].
    - rewrite IH. destruct (decide (p = c)) as [->|Hne].
      + rewrite lookup_insert_eq.
        rewrite (decide_True (P := c ∈ c :: cs)) by (rewrite elem_of_cons; tauto).
        now destruct (decide (c ∈ cs)).
      + rewrite lookup_insert_ne by done.
        destruct (decide (p ∈ cs)) as [Hin|Hin].
        * now rewrite decide_True by (rewrite elem_of_cons; tauto).
        * now rewrite decide_False by (rewrite elem_of_cons; tauto). }
  rewrite H. now rewrite lookup_empty.
Qed.

(** The entries of the map are those of the distinct pointers of [cs], in
    some order. *)
Lemma groupByChangeset_entries heap cs events :
  map_to_list (groupByChangeset heap cs events)
  ≡ₚ entriesOf heap events (remove_dups cs).
Proof.
  apply NoDup_Permutation.
  - apply NoDup_map_to_list.
  - unfold entriesOf.
    apply (NoDup_fmap_2_strong (fun c => (c, group (a8n.ID (heap c)) events))).
    + intros x y _ _ Heq. now inversion Heq.
    + apply NoDup_remove_dups.
  - intros [p evs]. rewrite elem_of_map_to_list, groupByChangeset_lookup.
    unfold entriesOf. rewrite list_elem_of_fmap. split.
    + case_decide as Hin; [|done]. intros [= <-].
      exists p. split; [done|]. now apply elem_of_remove_dups.
    + intros (c & [= -> ->] & Hin). rewrite elem_of_remove_dups in Hin.
      now rewrite decide_True.
Qed.

(** ** [sort.Sort] *)

Lemma sinkLeft_Permutation e before : sinkLeft e before ≡ₚ e :: before.
Proof.
  induction before as [|x before IH]; cbn; [done|].
  destruct (Less e x); [|done].
  rewrite IH. apply Permutation_swap.
Qed.

Lemma insertionSort_Permutation es : insertionSort es ≡ₚ es.
Proof.
  unfold insertionSort. rewrite <- Permutation_rev.
  assert (∀ before, foldl (fun before e => sinkLeft e before) before es
                    ≡ₚ es ++ before) as H.
  { induction es as [|e es IH]; intros before; cbn [foldl]; [done|].
    rewrite IH, sinkLeft_Permutation. cbn. symmetry. apply Permutation_middle. }
  rewrite H. now rewrite app_nil_r.
Qed.

(** The sorted slice is in ascending order of timestamps. *)
Lemma sinkLeft_sorted e before :
  StronglySorted (fun x y => Timestamp y ≤ Timestamp x) before →
  StronglySorted (fun x y => Timestamp y ≤ Timestamp x) (sinkLeft e before).
Proof.
  induction 1 as [|x before Hs IH Hx]; cbn [sinkLeft].
  - repeat constructor.
  - unfold Less, time.Before. destruct (Z.ltb_spec (Timestamp e) (Timestamp x)).
    + constructor; [exact IH|].
      rewrite Forall_forall. intros y Hy.
      rewrite sinkLeft_Permutation in Hy.
      apply elem_of_cons in Hy as [->|Hy]; [lia|].
      rewrite Forall_forall in Hx. now apply Hx.
    + constructor; [now constructor|].
      constructor; [done|].
      eapply Forall_impl; [exact Hx|]. cbn. intros y Hy. lia.
Qed.

Lemma insertionSort_sorted es :
  StronglySorted (fun x y => Timestamp x ≤ Timestamp y) (insertionSort es).
Proof.
  unfold insertionSort.
  assert (∀ before,
    StronglySorted (fun x y => Timestamp y ≤ Timestamp x) before →
    StronglySorted (fun x y => Timestamp y ≤ Timestamp x)
      (foldl (fun before e => sinkLeft e before) before es)) as Hfold.
  { induction es as [|e es IH]; intros before Hs; cbn [foldl]; [done|].
    now apply IH, sinkLeft_sorted. }
  specialize (Hfold [] (SSorted_nil _)). revert Hfold.
  generalize (foldl (fun before e => sinkLeft e before) [] es).
  induction 1 as [|x l Hs IH Hx]; cbn [rev]; [constructor|].
  apply StronglySorted_app. split; [|split; [exact IH|repeat constructor]].
  intros y z Hy Hz. apply list_elem_of_singleton in Hz as ->.
  rewrite Forall_forall in Hx. apply Hx.
  apply list_elem_of_In, in_rev. now apply list_elem_of_In.
Qed.

(** ** [CalcCounts] in closed form *)

Lemma created_dec heap cs :
  allCreated heap cs ∨
  Exists (fun c => ∀ openedAt,
            a8n.ExternalCreatedAt (heap c) ≠ a8n.Ok openedAt) cs.
Proof.
  induction cs as [|c cs [IH|IH]].
  - left. constructor.
  - destruct (a8n.ExternalCreatedAt (heap c)) as [openedAt|err] eqn:Hc.
    + left. constructor; [now exists openedAt|done].
    + right. constructor. intros openedAt. now rewrite Hc.
  - right. now constructor.
Qed.

Lemma allCreated_remove_dups heap cs :
  allCreated heap cs → allCreated heap (remove_dups cs).
Proof.
  unfold allCreated. rewrite !Forall_forall. intros H c Hc.
  apply H. now rewrite elem_of_remove_dups in Hc.
Qed.

Lemma newCounts_all_inRange ts : Forall inRange (map newCounts ts).
Proof. apply Forall_fmap, Forall_true. intros t. apply newCounts_inRange. Qed.

(** When every changeset has a creation timestamp, the snapshot at each
    sampled instant is the sum of the contributions of the distinct
    changesets. *)
Lemma CalcCountsWith_created sorter heap start end_ cs es :
  allCreated heap cs →
  CalcCountsWith sorter heap start end_ cs es
  = a8n.Ok (map (fun t => total t (map (contribution heap (sorter es) t)
                                       (remove_dups cs)))
                (generateTimestamps start end_)).
Proof.
  intros Hcs. unfold CalcCountsWith. cbv zeta.
  rewrite (rangeByChangeset_Permutation _ _ _ _
             (groupByChangeset_entries heap cs (sorter es)))
    by apply newCounts_all_inRange.
  rewrite rangeByChangeset_created
    by (apply allCreated_remove_dups, Hcs || apply newCounts_all_inRange).
  f_equal. rewrite map_map. apply map_ext. intros t. cbn [newCounts Time].
  match goal with
  | |- plus _ (total t ?l) = _ =>
      pose proof (newCounts_plus (total t l) (total_inRange t l)) as H
  end.
  now rewrite total_Time in H.
Qed.

(** When some changeset has none, the run fails. *)
Lemma CalcCountsWith_missing sorter heap start end_ cs es :
  Exists (fun c => ∀ openedAt,
            a8n.ExternalCreatedAt (heap c) ≠ a8n.Ok openedAt) cs →
  CalcCountsWith sorter heap start end_ cs es
  = a8n.Err a8n.MissingCreationTime.
Proof.
  intros Hex. unfold CalcCountsWith. cbv zeta.
  apply rangeByChangeset_missing.
  apply Exists_exists in Hex as (c & Hc & Hmiss).
  apply Exists_exists. exists (c, group (a8n.ID (heap c)) (sorter es)).
  split; [|done].
  rewrite elem_of_map_to_list, groupByChangeset_lookup.
  now rewrite decide_True.
Qed.

Lemma group_Permutation id events events' :
  events ≡ₚ events' → group id events ≡ₚ group id events'.
Proof. intros Hp. unfold group. now rewrite Hp. Qed.

Lemma contribution_Permutation heap events events' t c :
  events ≡ₚ events' →
  contribution heap events t c = contribution heap events' t c.
Proof.
  intros Hp. unfold contribution.
  destruct (a8n.ExternalCreatedAt (heap c)); [|done].
  apply countChangeset_Permutation; [apply newCounts_inRange|].
  now apply group_Permutation.
Qed.

Lemma remove_dups_Permutation (cs cs' : list loc) :
  cs ≡ₚ cs' → remove_dups cs ≡ₚ remove_dups cs'.
Proof.
  intros Hp. apply NoDup_Permutation; try apply NoDup_remove_dups.
  intros c. rewrite !elem_of_remove_dups. now rewrite Hp.
Qed.

Lemma total_Permutation t l l' : l ≡ₚ l' → total t l = total t l'.
Proof. apply foldl_plus_Permutation. Qed.

(** [CalcCounts] does not depend on which permutation the sorting routine
    produces, nor on the order of its two slice arguments. *)
Lemma CalcCountsWith_Permutation sorter sorter' heap start end_ cs cs' es es' :
  (∀ l, sorter l ≡ₚ l) → (∀ l, sorter' l ≡ₚ l) →
  cs ≡ₚ cs' → es ≡ₚ es' →
  CalcCountsWith sorter heap start end_ cs es
  = CalcCountsWith sorter' heap start end_ cs' es'.
Proof.
  intros Hs Hs' Hcs Hes.
  destruct (created_dec heap cs) as [Hall|Hex].
  - rewrite !CalcCountsWith_created;
      [|unfold allCreated; now rewrite <- Hcs|done].
    f_equal. apply map_ext. intros t.
    rewrite (total_Permutation t _
               (map (contribution heap (sorter es) t) (remove_dups cs'))).
    + f_equal. apply map_ext. intros c. apply contribution_Permutation.
      now rewrite Hs, Hs'.
    + apply Permutation_map, remove_dups_Permutation, Hcs.
  - rewrite !CalcCountsWith_missing; [done| |done].
    apply Exists_exists in Hex as (c & Hc & Hmiss).
    apply Exists_exists. exists c. split; [|done]. now rewrite <- Hcs.
Qed.

Lemma CalcCountsWith_sorter sorter heap start end_ cs es :
  (∀ l, sorter l ≡ₚ l) →
  CalcCountsWith sorter heap start end_ cs es = CalcCounts heap start end_ cs es.
Proof.
  intros Hs. apply CalcCountsWith_Permutation; try done.
  apply insertionSort_Permutation.
Qed.

(** ** Sampled instants *)

(** C3: for [start ≤ end] the instants of [generateTimestamps start end]
    ascend, the last one is [end], the first one is at or after [start],
    neighbours are exactly 24 hours apart, and they are the [Time] fields of
    the snapshots [CalcCounts] returns. *)
Theorem generateTimestamps_ends_on_end start end_ :
  start ≤ end_ →
  let ts := generateTimestamps start end_ in
  last ts = Some end_ ∧
  (∃ first, head ts = Some first ∧ start ≤ first) ∧
  (∀ i t t', ts !! i = Some t → ts !! S i = Some t' →
             t' = time.Add t (24 * time.Hour)) ∧
  (∀ i j t t', (i < j)%nat → ts !! i = Some t → ts !! j = Some t' → t < t') ∧
  (∀ heap cs es counts,
     CalcCounts heap start end_ cs es = a8n.Ok counts → map Time counts = ts).
Proof.
  intros Hle ts. subst ts.
  assert (samples start end_ = S (Z.to_nat ((end_ - start) / day))) as Hn.
  { unfold samples. assert (0 ≤ (end_ - start) / day)
      by (apply Z.div_pos; [lia|now rewrite day_eq]). lia. }
  assert (Z.of_nat (Z.to_nat ((end_ - start) / day)) * day ≤ end_ - start) as Hfit.
  { rewrite Z2Nat.id by (apply Z.div_pos; [lia|now rewrite day_eq]).
    rewrite Z.mul_comm. apply Z.mul_div_le. now rewrite day_eq. }
  split; [|split; [|split; [|split]]].
  - rewrite last_lookup, generateTimestamps_length.
    apply generateTimestamps_lookup. split; [lia|].
    replace (samples start end_ - 1 - Nat.pred (samples start end_))%nat with O by lia.
    lia.
  - exists (end_ - Z.of_nat (samples start end_ - 1 - 0) * day). split.
    + rewrite head_lookup. apply generateTimestamps_lookup. split; [lia|done].
    + rewrite Hn. replace (S _ - 1 - 0)%nat with (Z.to_nat ((end_ - start) / day)) by lia.
      lia.
  - intros i t t' Hi HSi.
    apply generateTimestamps_lookup in Hi as [Hi ->].
    apply generateTimestamps_lookup in HSi as [HSi ->].
    unfold time.Add. change (24 * time.Hour) with day.
    replace (samples start end_ - 1 - i)%nat
      with (S (samples start end_ - 1 - S i)) by lia.
    lia.
  - intros i j t t' Hij Hi Hj.
    apply generateTimestamps_lookup in Hi as [Hi ->].
    apply generateTimestamps_lookup in Hj as [Hj ->].
    assert (Z.of_nat (samples start end_ - 1 - j)
            < Z.of_nat (samples start end_ - 1 - i)) by lia.
    rewrite day_eq. lia.
  - intros heap cs es counts Hok.
    destruct (created_dec heap cs) as [Hall|Hex].
    + unfold CalcCounts in Hok. rewrite CalcCountsWith_created in Hok by done.
      injection Hok as <-. rewrite map_map.
      rewrite <- (map_id (generateTimestamps start end_)) at 2.
      apply map_ext. intros t. apply total_Time.
    + unfold CalcCounts in Hok. now rewrite CalcCountsWith_missing in Hok.
Qed.

Lemma generateTimestamps_ends_on_end_witness :
  daysAgo 2 - 5 ≤ now ∧
  generateTimestamps (daysAgo 2 - 5) now = [daysAgo 2; daysAgo 1; now] ∧
  last (generateTimestamps (daysAgo 2 - 5) now) = Some now.
Proof.
  split; [vm_compute; discriminate|]. split; [reflexivity|].
  apply (generateTimestamps_ends_on_end (daysAgo 2 - 5) now).
  vm_compute; discriminate.
Defined.

(** ** Order independence *)

Lemma CalcCounts_alone heap start end_ c es openedAt :
  a8n.ExternalCreatedAt (heap c) = a8n.Ok openedAt →
  CalcCounts heap start end_ [c] es
  = a8n.Ok (map (fun t => contribution heap (insertionSort es) t c)
                (generateTimestamps start end_)).
Proof.
  intros Hc. unfold CalcCounts. rewrite CalcCountsWith_created.
  - f_equal. apply map_ext. intros t.
    change (remove_dups [c]) with [c].
    cbn [map]. rewrite total_cons
      by (apply contribution_inRange || apply contribution_Time).
    apply plus_newCounts, contribution_inRange.
  - constructor; [now exists openedAt|constructor].
Qed.

(** C4: the value of [CalcCounts] does not change when the changesets or
    the events are permuted, nor with the order in which the map
    [byChangeset] is iterated; and each returned snapshot is the [int32] sum,
    over the distinct changesets, of the snapshot [CalcCounts] returns at the
    same position for that changeset alone. *)
Theorem CalcCounts_order_independent heap start end_ cs cs' es es' :
  cs ≡ₚ cs' → es ≡ₚ es' →
  CalcCounts heap start end_ cs' es' = CalcCounts heap start end_ cs es ∧
  (∀ entries,
     entries ≡ₚ map_to_list (groupByChangeset heap cs (insertionSort es)) →
     rangeByChangeset heap entries (map newCounts (generateTimestamps start end_))
     = CalcCounts heap start end_ cs es) ∧
  (∀ counts i count,
     CalcCounts heap start end_ cs es = a8n.Ok counts →
     counts !! i = Some count →
     ∃ alone,
       Forall2 (fun c x => ∃ single,
                  CalcCounts heap start end_ [c] es = a8n.Ok single ∧
                  single !! i = Some x)
               (remove_dups cs) alone ∧
       count = total (Time count) alone).
Proof.
  intros Hcs Hes. split; [|split].
  - symmetry. apply CalcCountsWith_Permutation;
      done || apply insertionSort_Permutation.
  - intros entries Hp. unfold CalcCounts, CalcCountsWith. cbv zeta.
    apply rangeByChangeset_Permutation; [done|apply newCounts_all_inRange].
  - intros counts i count Hok Hi.
    destruct (created_dec heap cs) as [Hall|Hex];
      [|unfold CalcCounts in Hok; now rewrite CalcCountsWith_missing in Hok].
    unfold CalcCounts in Hok. rewrite CalcCountsWith_created in Hok by done.
    injection Hok as <-.
    apply list_lookup_fmap_Some in Hi as (t & -> & Ht).
    exists (map (contribution heap (insertionSort es) t) (remove_dups cs)).
    rewrite total_Time. split; [|done].
    apply Forall2_fmap_r, Forall_Forall2_diag.
    apply allCreated_remove_dups in Hall.
    eapply Forall_impl; [exact Hall|]. intros c [openedAt Hc]. cbn.
    eexists. split; [now apply (CalcCounts_alone _ _ _ _ _ openedAt)|].
    now rewrite list_lookup_fmap, Ht.
Qed.

Lemma CalcCounts_order_independent_witness :
  let heap := heapOf [ghChangesetCreated 1 (daysAgo 3);
                      ghChangesetCreated 2 (daysAgo 2)] in
  let merged1 := fakeEvent (daysAgo 2) a8n.ChangesetEventKindGitHubMerged 1 in
  let merged2 := fakeEvent (daysAgo 1) a8n.ChangesetEventKindGitHubMerged 2 in
  [1; 2]%positive ≡ₚ [2; 1]%positive ∧
  [merged1; merged2] ≡ₚ [merged2; merged1] ∧
  CalcCounts heap (daysAgo 4) now [2; 1]%positive [merged2; merged1]
  = CalcCounts heap (daysAgo 4) now [1; 2]%positive [merged1; merged2] ∧
  ∃ alone,
    Forall2 (fun c x => ∃ single,
               CalcCounts heap (daysAgo 4) now [c] [merged1; merged2]
               = a8n.Ok single ∧ single !! 2%nat = Some x)
            [1; 2]%positive alone ∧
    Build_ChangesetCounts (daysAgo 2) 2 1 0 1 0 0 0
    = total (daysAgo 2) alone.
Proof.
  intros heap merged1 merged2.
  split; [apply Permutation_swap|]. split; [apply Permutation_swap|].
  pose proof (CalcCounts_order_independent heap (daysAgo 4) now
                [1; 2]%positive [2; 1]%positive
                [merged1; merged2] [merged2; merged1]
                (Permutation_swap _ _ _) (Permutation_swap _ _ _))
    as (Hsame & _ & Hsum).
  split; [exact Hsame|].
  eapply (Hsum _ 2%nat (Build_ChangesetCounts (daysAgo 2) 2 1 0 1 0 0 0));
    vm_compute; reflexivity.
Defined.

(** ** Missing creation timestamps *)

(** C5: when some changeset of [cs] has no external creation timestamp,
    [CalcCounts] returns the [MissingCreationTime] error and no snapshots,
    in whatever order the map [byChangeset] is iterated. *)
Theorem CalcCounts_missing_creation_time heap start end_ cs es c :
  c ∈ cs →
  a8n.ExternalCreatedAt (heap c) = a8n.Err a8n.MissingCreationTime →
  CalcCounts heap start end_ cs es = a8n.Err a8n.MissingCreationTime ∧
  ∀ entries,
    entries ≡ₚ map_to_list (groupByChangeset heap cs (insertionSort es)) →
    rangeByChangeset heap entries (map newCounts (generateTimestamps start end_))
    = a8n.Err a8n.MissingCreationTime.
Proof.
  intros Hin Hc.
  assert (CalcCounts heap start end_ cs es = a8n.Err a8n.MissingCreationTime) as H.
  { apply CalcCountsWith_missing, Exists_exists. exists c. split; [done|].
    intros openedAt. now rewrite Hc. }
  split; [exact H|]. intros entries Hp. rewrite <- H.
  unfold CalcCounts, CalcCountsWith. cbv zeta.
  apply rangeByChangeset_Permutation; [done|apply newCounts_all_inRange].
Qed.

Lemma CalcCounts_missing_creation_time_witness :
  let heap := heapOf [ghChangesetCreated 1 (daysAgo 2);
                      {| a8n.ID := 2; a8n.Metadata_ := a8n.OtherMetadata |}] in
  2%positive ∈ [1; 2]%positive ∧
  a8n.ExternalCreatedAt (heap 2%positive) = a8n.Err a8n.MissingCreationTime ∧
  CalcCounts heap (daysAgo 2) now [1; 2]%positive
    [fakeEvent (daysAgo 1) a8n.ChangesetEventKindGitHubMerged 1]
  = a8n.Err a8n.MissingCreationTime.
Proof.
  intros heap.
  assert (2%positive ∈ [1; 2]%positive) as Hin
    by (apply list_elem_of_further, list_elem_of_here).
  split; [exact Hin|]. split; [reflexivity|].
  exact (proj1 (CalcCounts_missing_creation_time heap (daysAgo 2) now
                  [1; 2]%positive
                  [fakeEvent (daysAgo 1) a8n.ChangesetEventKindGitHubMerged 1]
                  2%positive Hin eq_refl)).
Defined.

(** C10: when [end] is before [start] no instant is sampled; [CalcCounts]
    then returns an empty list of snapshots if every changeset has a creation
    timestamp, and still fails with the [MissingCreationTime] error if one
    has none. *)
Theorem CalcCounts_empty_window heap start end_ cs es :
  end_ < start →
  generateTimestamps start end_ = [] ∧
  (allCreated heap cs → CalcCounts heap start end_ cs es = a8n.Ok []) ∧
  (∀ c, c ∈ cs →
        a8n.ExternalCreatedAt (heap c) = a8n.Err a8n.MissingCreationTime →
        CalcCounts heap start end_ cs es = a8n.Err a8n.MissingCreationTime).
Proof.
  intros Hlt. split; [now apply generateTimestamps_empty|]. split.
  - intros Hall. unfold CalcCounts. rewrite CalcCountsWith_created by done.
    now rewrite generateTimestamps_empty.
  - intros c Hin Hc. apply CalcCountsWith_missing, Exists_exists.
    exists c. split; [done|]. intros openedAt. now rewrite Hc.
Qed.

Lemma CalcCounts_empty_window_witness :
  let heap := heapOf [ghChangesetCreated 1 (daysAgo 2);
                      {| a8n.ID := 2; a8n.Metadata_ := a8n.OtherMetadata |}] in
  let es := [fakeEvent (daysAgo 1) a8n.ChangesetEventKindGitHubMerged 1] in
  daysAgo 3 < daysAgo 2 ∧
  generateTimestamps (daysAgo 2) (daysAgo 3) = [] ∧
  CalcCounts heap (daysAgo 2) (daysAgo 3) [1%positive] es = a8n.Ok [] ∧
  CalcCounts heap (daysAgo 2) (daysAgo 3) [1; 2]%positive es
  = a8n.Err a8n.MissingCreationTime.
Proof.
  intros heap es.
  assert (daysAgo 3 < daysAgo 2) as Hlt by reflexivity.
  split; [exact Hlt|]. split; [|split].
  - exact (proj1 (CalcCounts_empty_window heap _ _ [1%positive] es Hlt)).
  - apply (proj1 (proj2 (CalcCounts_empty_window heap _ _ [1%positive] es Hlt))).
    constructor; [|constructor]. now exists (daysAgo 2).
  - apply (proj2 (proj2 (CalcCounts_empty_window heap _ _ [1; 2]%positive es Hlt))
             2%positive); [|reflexivity].
    apply list_elem_of_further, list_elem_of_here.
Defined.

(** ** "On or before" *)

Lemma foldl_applyEvent_filter t evs c :
  foldl (applyEvent t) c evs
  = foldl applyKind c (map Type_ (filter (fun e => Timestamp e ≤ t) evs)).
Proof.
  revert c. induction evs as [|e evs IH]; intros c; cbn [foldl]; [done|].
  rewrite filter_cons, IH. unfold applyEvent, time.After.
  destruct (Z.ltb_spec t (Timestamp e)).
  - now rewrite decide_False by lia.
  - now rewrite decide_True by lia.
Qed.

Lemma countChangeset_on_or_before openedAt evs count :
  countChangeset openedAt evs count
  = if openedAt <=? Time count
    then foldl applyKind (opened count)
           (map Type_ (filter (fun e => Timestamp e ≤ Time count) evs))
    else count.
Proof.
  unfold countChangeset, time.Before, time.Equal. cbv zeta.
  rewrite foldl_applyEvent_filter.
  destruct (Z.leb_spec openedAt (Time count)),
           (Z.ltb_spec openedAt (Time count)),
           (Z.eqb_spec openedAt (Time count)); try reflexivity; lia.
Qed.

(** The contribution of a changeset, with the events as the grouping of
    [CalcCounts] hands them over. *)
Lemma contribution_group heap events t c :
  contribution heap events t c
  = match a8n.ExternalCreatedAt (heap c) with
    | a8n.Ok openedAt =>
        if openedAt <=? t
        then foldl applyKind
               {| Time := t; Total := 1; Merged := 0; Closed := 0; Open := 1;
                  OpenApproved := 0; OpenChangesRequested := 0;
                  OpenPending := 0 |}
               (map Type_
                  (filter (fun e => Timestamp e ≤ t)
                          (group (a8n.ID (heap c)) events)))
        else newCounts t
    | a8n.Err _ => newCounts t
    end.
Proof.
  unfold contribution.
  destruct (a8n.ExternalCreatedAt (heap c)); [|done].
  now rewrite countChangeset_on_or_before.
Qed.

(** The grouping hands each changeset the events that carry its ID, and
    only those. *)
Lemma group_on_or_before id t (events : Events) :
  filter (fun e => Timestamp e ≤ t) (group id events)
  = filter (fun e => Changeset e = id ∧ Timestamp e ≤ t) events.
Proof.
  unfold group. rewrite list_filter_filter.
  apply list_filter_iff. intros e. tauto.
Qed.

Lemma contribution_onOrBefore heap events t c :
  contribution heap events t c = onOrBefore heap events t c.
Proof.
  rewrite contribution_group. unfold onOrBefore.
  now rewrite group_on_or_before.
Qed.

(** C6: a changeset opened after the instant of a snapshot leaves it
    unchanged; one opened at or before it adds one to [Total] and [Open] and
    then applies exactly its events with a timestamp at or before that
    instant.  The snapshots [CalcCounts] returns are the sums of these
    contributions. *)
Theorem CalcCounts_on_or_before heap start end_ cs es counts :
  CalcCounts heap start end_ cs es = a8n.Ok counts →
  counts = map (fun t => total t (map (onOrBefore heap (insertionSort es) t)
                                      (remove_dups cs)))
               (generateTimestamps start end_) ∧
  ∀ openedAt evs count,
    countChangeset openedAt evs count
    = if openedAt <=? Time count
      then foldl applyKind (opened count)
             (map Type_ (filter (fun e => Timestamp e ≤ Time count) evs))
      else count.
Proof.
  intros Hok. split; [|apply countChangeset_on_or_before].
  destruct (created_dec heap cs) as [Hall|Hex];
    [|unfold CalcCounts in Hok; now rewrite CalcCountsWith_missing in Hok].
  unfold CalcCounts in Hok. rewrite CalcCountsWith_created in Hok by done.
  injection Hok as <-. apply map_ext. intros t. f_equal.
  apply map_ext. intros c. apply contribution_onOrBefore.
Qed.

Lemma CalcCounts_on_or_before_witness :
  let heap := heapOf [ghChangesetCreated 1 (daysAgo 2);
                      ghChangesetCreated 2 (daysAgo 1)] in
  let es := [fakeEvent now a8n.ChangesetEventKindGitHubClosed 1;
             fakeEvent (daysAgo 1) a8n.ChangesetEventKindGitHubMerged 2;
             fakeEvent (now + 1) a8n.ChangesetEventKindGitHubReopened 1;
             fakeEvent (daysAgo 1) a8n.ChangesetEventKindGitHubMerged 3] in
  let counts := [Build_ChangesetCounts (daysAgo 2) 1 0 0 1 0 0 0;
                 Build_ChangesetCounts (daysAgo 1) 2 1 0 1 0 0 0;
                 Build_ChangesetCounts now 2 1 1 0 0 0 0] in
  CalcCounts heap (daysAgo 2) now [1; 2]%positive es = a8n.Ok counts ∧
  counts = map (fun t => total t (map (onOrBefore heap (insertionSort es) t)
                                      [1; 2]%positive))
               [daysAgo 2; daysAgo 1; now] ∧
  onOrBefore heap (insertionSort es) now 1%positive
  = Build_ChangesetCounts now 1 0 1 0 0 0 0 ∧
  onOrBefore heap (insertionSort es) now 2%positive
  = Build_ChangesetCounts now 1 1 0 0 0 0 0 ∧
  onOrBefore heap (insertionSort es) (daysAgo 2) 2%positive
  = Build_ChangesetCounts (daysAgo 2) 0 0 0 0 0 0 0.
Proof.
  intros heap es counts.
  assert (CalcCounts heap (daysAgo 2) now [1; 2]%positive es = a8n.Ok counts)
    as Hok by reflexivity.
  split; [exact Hok|]. split; [|repeat split; reflexivity].
  exact (proj1 (CalcCounts_on_or_before heap (daysAgo 2) now [1; 2]%positive es
                  counts Hok)).
Defined.

(** ** The counters add up *)

(** Replaces every wrapped value of the goal by the value plus a multiple of
    [2^32]. *)
Ltac unwrap32 :=
  unfold incr, decr, add32;
  repeat match goal with
         | |- context [wrap32 ?z] =>
             let k := fresh "k" in
             let Hk := fresh "Hk" in
             destruct (wrap32_multiple z) as [k Hk]; rewrite Hk; clear Hk
         end.

Lemma newCounts_balanced t : balanced (newCounts t).
Proof. exists 0. reflexivity. Qed.

Lemma opened_balanced c : balanced c → balanced (opened c).
Proof.
  intros [k Hk]. unfold balanced, opened; cbn. unwrap32.
  exists (k + k0 - k1). lia.
Qed.

Lemma applyKind_balanced c kind : balanced c → balanced (applyKind c kind).
Proof.
  intros [k Hk]. destruct kind; unfold balanced; cbn;
    try (now exists k); unwrap32.
  - exists (k + k0 + k1). lia.
  - exists (k + k0 + k1). lia.
  - exists (k + k0 + k1). lia.
Qed.

Lemma countChangeset_balanced openedAt evs c :
  balanced c → balanced (countChangeset openedAt evs c).
Proof.
  intros Hc. rewrite countChangeset_on_or_before.
  destruct (_ <=? _); [|done].
  apply opened_balanced in Hc. revert Hc. generalize (opened c).
  induction (map Type_ _) as [|kind kinds IH]; intros x Hx; cbn; [done|].
  now apply IH, applyKind_balanced.
Qed.

Lemma contribution_balanced heap events t c :
  balanced (contribution heap events t c).
Proof.
  unfold contribution. destruct (a8n.ExternalCreatedAt (heap c)).
  - apply countChangeset_balanced, newCounts_balanced.
  - apply newCounts_balanced.
Qed.

Lemma plus_balanced a b : balanced a → balanced b → balanced (plus a b).
Proof.
  intros [k Hk] [k' Hk']. unfold balanced, plus; cbn. unwrap32.
  exists (k + k' + k0 + k1 + k2 - k3). lia.
Qed.

Lemma total_balanced t l : Forall balanced l → balanced (total t l).
Proof.
  unfold total. generalize (newCounts t) (newCounts_balanced t).
  induction l as [|x l IH]; intros c Hc Hl; cbn; [done|].
  inversion Hl; subst. apply IH; [|done]. now apply plus_balanced.
Qed.

Lemma balanced_inRange c :
  inRange c → balanced c →
  add32 (add32 (Open c) (Closed c)) (Merged c) = Total c.
Proof.
  intros (HT&_) [k Hk]. unfold add32. rewrite wrap32_wrap_l, Hk, wrap32_shift.
  now apply wrap32_id.
Qed.

(** Below the [int32] limit nothing wraps around, and the counters add up
    over the integers. *)
Lemma wrap32_within z : Z.abs z < 2 ^ 31 → wrap32 z = z.
Proof. intros Hz. apply wrap32_id. unfold int32. lia. Qed.

Lemma applyKind_exact bound c kind :
  within bound c → exact c → bound + 1 < 2 ^ 31 →
  within (bound + 1) (applyKind c kind) ∧ exact (applyKind c kind).
Proof.
  intros (HT & HM & HC & HO) Hc Hb. unfold within, exact in *.
  destruct kind; cbn; unfold incr, decr;
    rewrite ?wrap32_within by lia; lia.
Qed.

Lemma foldl_applyKind_exact kinds bound c :
  within bound c → exact c → bound + Z.of_nat (length kinds) < 2 ^ 31 →
  within (bound + Z.of_nat (length kinds)) (foldl applyKind c kinds) ∧
  exact (foldl applyKind c kinds).
Proof.
  revert bound c. induction kinds as [|kind kinds IH]; intros bound c Hw Hc Hb.
  - cbn. now rewrite Z.add_0_r.
  - cbn [foldl length] in *.
    destruct (applyKind_exact bound c kind Hw Hc) as [Hw' Hc']; [lia|].
    replace (bound + Z.of_nat (S (length kinds)))
      with (bound + 1 + Z.of_nat (length kinds)) by lia.
    apply IH; trivial. lia.
Qed.

Lemma within_le bound bound' c : within bound c → bound ≤ bound' → within bound' c.
Proof. unfold within. lia. Qed.

Lemma contribution_exact heap events t c :
  1 + Z.of_nat (length events) < 2 ^ 31 →
  within (1 + Z.of_nat (length events)) (contribution heap events t c) ∧
  exact (contribution heap events t c).
Proof.
  intros Hb. rewrite contribution_group.
  assert (within (1 + Z.of_nat (length events)) (newCounts t) ∧ exact (newCounts t))
    as Hzero by (unfold within, exact; cbn; lia).
  destruct (a8n.ExternalCreatedAt (heap c)) as [openedAt|]; [|done].
  destruct (openedAt <=? t); [|done].
  match goal with
  | |- within _ (foldl applyKind ?c0 ?kinds) ∧ _ =>
      assert (Z.of_nat (length kinds) ≤ Z.of_nat (length events)) as Hlen;
      [|destruct (foldl_applyKind_exact kinds 1 c0) as [Hw Hc]]
  end.
  - rewrite length_map. apply inj_le.
    etransitivity; [apply length_filter|]. unfold group. apply length_filter.
  - unfold within; cbn; lia.
  - reflexivity.
  - lia.
  - split; [|done]. eapply within_le; [exact Hw|lia].
Qed.

Lemma plus_exact bound bound' x y :
  within bound x → within bound' y → bound + bound' < 2 ^ 31 →
  exact x → exact y →
  within (bound + bound') (plus x y) ∧ exact (plus x y).
Proof.
  intros (HT & HM & HC & HO) (HT' & HM' & HC' & HO') Hb Hx Hy.
  unfold within, exact in *. unfold plus, add32. cbn [Total Merged Closed Open].
  rewrite !wrap32_within by lia.
  repeat split; lia.
Qed.

Lemma foldl_plus_exact bound l acc x :
  Forall (fun y => within bound y ∧ exact y) l →
  0 ≤ bound → within acc x → exact x →
  acc + Z.of_nat (length l) * bound < 2 ^ 31 →
  exact (foldl plus x l).
Proof.
  intros Hl Hbound. revert acc x.
  induction Hl as [|y l [Hy Hy'] Hl IH]; intros acc x Hw Hx Hb; cbn [foldl]; [done|].
  cbn [length] in Hb.
  destruct (plus_exact acc bound x y) as [Hw' Hx']; trivial; [nia|].
  apply (IH (acc + bound)); trivial. nia.
Qed.

(** C9: in every snapshot [CalcCounts] returns, [Open + Closed + Merged]
    equals [Total]: as an [int32] sum, like the counters, for every input,
    and as a sum of integers as long as the number of changesets times one
    more than the number of events stays below [2^31]. *)
Theorem CalcCounts_open_closed_merged heap start end_ cs es counts count :
  CalcCounts heap start end_ cs es = a8n.Ok counts →
  count ∈ counts →
  add32 (add32 (Open count) (Closed count)) (Merged count) = Total count ∧
  (Z.of_nat (length (remove_dups cs)) * (1 + Z.of_nat (length es)) < 2 ^ 31 →
   Open count + Closed count + Merged count = Total count).
Proof.
  intros Hok Hin.
  destruct (created_dec heap cs) as [Hall|Hex];
    [|unfold CalcCounts in Hok; now rewrite CalcCountsWith_missing in Hok].
  unfold CalcCounts in Hok. rewrite CalcCountsWith_created in Hok by done.
  injection Hok as <-.
  apply list_elem_of_fmap in Hin as (t & -> & _). split.
  - apply balanced_inRange; [apply total_inRange|].
    apply total_balanced, Forall_fmap, Forall_true. intros c.
    apply contribution_balanced.
  - intros Hb. unfold total.
    assert (length (insertionSort es) = length es) as Hlen
      by apply Permutation_length, insertionSort_Permutation.
    destruct (remove_dups cs) as [|c0 l]; [reflexivity|].
    assert (1 + Z.of_nat (length es) < 2 ^ 31) as Hone
      by (cbn [length] in Hb; nia).
    apply (foldl_plus_exact (1 + Z.of_nat (length es)) _ 0).
    + apply Forall_fmap, Forall_true. intros c. cbn.
      rewrite <- Hlen. apply contribution_exact. now rewrite Hlen.
    + lia.
    + unfold within; cbn; lia.
    + reflexivity.
    + rewrite length_map. lia.
Qed.

Lemma CalcCounts_open_closed_merged_witness :
  let heap := heapOf [ghChangesetCreated 1 (daysAgo 4)] in
  let es := [fakeEvent (daysAgo 1) a8n.ChangesetEventKindGitHubMerged 1;
             fakeEvent (daysAgo 3) a8n.ChangesetEventKindGitHubClosed 1;
             fakeEvent (daysAgo 2) a8n.ChangesetEventKindGitHubReopened 1] in
  let counts := [Build_ChangesetCounts (daysAgo 5) 0 0 0 0 0 0 0;
                 Build_ChangesetCounts (daysAgo 4) 1 0 0 1 0 0 0;
                 Build_ChangesetCounts (daysAgo 3) 1 0 1 0 0 0 0;
                 Build_ChangesetCounts (daysAgo 2) 1 0 0 1 0 0 0;
                 Build_ChangesetCounts (daysAgo 1) 1 1 0 0 0 0 0;
                 Build_ChangesetCounts now 1 1 0 0 0 0 0] in
  let count := Build_ChangesetCounts (daysAgo 3) 1 0 1 0 0 0 0 in
  CalcCounts heap (daysAgo 5) now [1%positive] es = a8n.Ok counts ∧
  count ∈ counts ∧
  add32 (add32 (Open count) (Closed count)) (Merged count) = Total count ∧
  Open count + Closed count + Merged count = Total count.
Proof.
  intros heap es counts count.
  assert (CalcCounts heap (daysAgo 5) now [1%positive] es = a8n.Ok counts) as Hok
    by reflexivity.
  assert (count ∈ counts) as Hin
    by (do 2 apply list_elem_of_further; apply list_elem_of_here).
  split; [exact Hok|]. split; [exact Hin|].
  destruct (CalcCounts_open_closed_merged heap (daysAgo 5) now [1%positive] es
              counts count Hok Hin) as [Hwrap Hexact].
  split; [exact Hwrap|]. apply Hexact. reflexivity.
Defined.

(** ** Where the code departs from its tests *)

(** The three review counters are never written: they are zero in every
    snapshot, whatever the events. *)
Lemma applyKind_review c kind :
  OpenApproved (applyKind c kind) = OpenApproved c ∧
  OpenChangesRequested (applyKind c kind) = OpenChangesRequested c ∧
  OpenPending (applyKind c kind) = OpenPending c.
Proof. now destruct kind. Qed.

Lemma countChangeset_review openedAt evs c :
  OpenApproved (countChangeset openedAt evs c) = OpenApproved c ∧
  OpenChangesRequested (countChangeset openedAt evs c) = OpenChangesRequested c ∧
  OpenPending (countChangeset openedAt evs c) = OpenPending c.
Proof.
  rewrite countChangeset_on_or_before. destruct (_ <=? _); [|done].
  change (OpenApproved c) with (OpenApproved (opened c)).
  change (OpenChangesRequested c) with (OpenChangesRequested (opened c)).
  change (OpenPending c) with (OpenPending (opened c)).
  generalize (opened c).
  induction (map Type_ _) as [|kind kinds IH]; intros x; cbn [foldl]; [done|].
  destruct (IH (applyKind x kind)) as (-> & -> & ->). apply applyKind_review.
Qed.

Lemma contribution_review heap events t c :
  unreviewed (contribution heap events t c).
Proof.
  unfold contribution, unreviewed.
  destruct (a8n.ExternalCreatedAt (heap c)); [|done].
  destruct (countChangeset_review a (group (a8n.ID (heap c)) events)
              (newCounts t)) as (-> & -> & ->).
  done.
Qed.

Lemma total_review t l : Forall unreviewed l → unreviewed (total t l).
Proof.
  unfold total. assert (unreviewed (newCounts t)) as H0 by done.
  revert H0. generalize (newCounts t).
  induction l as [|x l IH]; intros c Hc Hl; cbn [foldl]; [done|].
  inversion Hl as [|? ? (Ha & Hr & Hp) Hl']; subst.
  destruct Hc as (Ha' & Hr' & Hp'). apply IH; [|done].
  unfold unreviewed; cbn. now rewrite Ha, Hr, Hp, Ha', Hr', Hp'.
Qed.

Lemma CalcCounts_review_counters_zero heap start end_ cs es counts count :
  CalcCounts heap start end_ cs es = a8n.Ok counts →
  count ∈ counts → unreviewed count.
Proof.
  intros Hok Hin.
  destruct (created_dec heap cs) as [Hall|Hex];
    [|unfold CalcCounts in Hok; now rewrite CalcCountsWith_missing in Hok].
  unfold CalcCounts in Hok. rewrite CalcCountsWith_created in Hok by done.
  injection Hok as <-.
  apply list_elem_of_fmap in Hin as (t & -> & _).
  apply total_review, Forall_fmap, Forall_true. intros c.
  apply contribution_review.
Qed.

(** C1: for the changeset of the test "changeset merged and closed at same
    time" (and of its variant with the two events in reverse order), which
    the test expects to be counted as merged=1, closed=0, open=0 from the
    day of the two events on, [CalcCounts] returns merged=1, closed=1,
    open=-1 on both days, for either order of the events. *)
Theorem CalcCounts_merged_and_closed_at_same_time :
  let heap := heapOf [ghChangesetCreated 1 (daysAgo 2)] in
  let merged := fakeEvent (daysAgo 1) a8n.ChangesetEventKindGitHubMerged 1 in
  let closed := fakeEvent (daysAgo 1) a8n.ChangesetEventKindGitHubClosed 1 in
  let have := [Build_ChangesetCounts (daysAgo 2) 1 0 0 1 0 0 0;
               Build_ChangesetCounts (daysAgo 1) 1 1 1 (-1) 0 0 0;
               Build_ChangesetCounts now 1 1 1 (-1) 0 0 0] in
  CalcCounts heap (daysAgo 2) now [1%positive] [merged; closed] = a8n.Ok have ∧
  CalcCounts heap (daysAgo 2) now [1%positive] [closed; merged] = a8n.Ok have.
Proof. split; reflexivity. Qed.

(** C2: for the changeset of the test "single changeset open, pending
    review, approved, merged", reviewed two days and merged one day before
    [end], for which the test expects [OpenApproved] to be 0, 1, 0 on the
    days around the review, [CalcCounts] returns [OpenApproved] = 0 on every
    day: a review event changes no counter. *)
Theorem CalcCounts_review_approved_then_merged :
  let heap := heapOf [ghChangesetCreated 1 (daysAgo 3)] in
  let es := [reviewedEvent 1 (daysAgo 2);
             fakeEvent (daysAgo 1) a8n.ChangesetEventKindGitHubMerged 1] in
  CalcCounts heap (daysAgo 4) now [1%positive] es
  = a8n.Ok [Build_ChangesetCounts (daysAgo 4) 0 0 0 0 0 0 0;
            Build_ChangesetCounts (daysAgo 3) 1 0 0 1 0 0 0;
            Build_ChangesetCounts (daysAgo 2) 1 0 0 1 0 0 0;
            Build_ChangesetCounts (daysAgo 1) 1 1 0 0 0 0 0;
            Build_ChangesetCounts now 1 1 0 0 0 0 0].
Proof. reflexivity. Qed.

(** C7: a counter of a returned snapshot can be negative.  For the
    changeset of the test "changeset merged and closed at same time" the
    snapshot of the day of the two events has [Open] = -1; for a changeset
    with a lone reopened event it has [Closed] = -1. *)
Theorem CalcCounts_negative_counter :
  let heap := heapOf [ghChangesetCreated 1 (daysAgo 2)] in
  let merged := fakeEvent (daysAgo 1) a8n.ChangesetEventKindGitHubMerged 1 in
  let closed := fakeEvent (daysAgo 1) a8n.ChangesetEventKindGitHubClosed 1 in
  let reopened := fakeEvent (daysAgo 1) a8n.ChangesetEventKindGitHubReopened 1 in
  (∃ counts count,
     CalcCounts heap (daysAgo 2) now [1%positive] [merged; closed]
     = a8n.Ok counts ∧
     counts !! 1%nat = Some count ∧ Open count = -1) ∧
  (∃ counts count,
     CalcCounts heap (daysAgo 2) now [1%positive] [reopened] = a8n.Ok counts ∧
     counts !! 1%nat = Some count ∧ Closed count = -1).
Proof.
  split; eexists _, _; (split; [reflexivity|]); split; reflexivity.
Qed.

(** ** Webhook signatures *)

(** The model of the library on known answers: the digest of ["abc"]
    (FIPS 180-4) and test case 2 of RFC 4231. *)
Example Sum256_abc :
  hex.EncodeToString (sha256.Sum256 (list_byte_of_string "abc"))
  = "ba7816bf8f01cfea414140de5dae2223b00361a396177a9cb410ff61f20015ad"%string.
Proof. vm_compute. reflexivity. Qed.

Example HMAC_SHA256_rfc4231_2 :
  hex.EncodeToString
    (HMAC_SHA256 (list_byte_of_string "Jefe")
                 (list_byte_of_string "what do ya want for nothing?"))
  = "5bdcc146bf60754e6a042426089575c75a003f089d2739839dec58b964ec3843"%string.
Proof. vm_compute. reflexivity. Qed.

Lemma hex_digits_byte v :
  Zbyte (16 * hex.fromHexChar (hex.digit (N.shiftr (Byte.to_N v) 4))
         + hex.fromHexChar (hex.digit (N.land (Byte.to_N v) 0x0f))) = v.
Proof. destruct v; vm_compute; reflexivity. Qed.

Lemma EncodeToString_inj src src' :
  hex.EncodeToString src = hex.EncodeToString src' → src = src'.
Proof.
  revert src'. induction src as [|v src IH]; intros [|v' src'] Heq;
    cbn [hex.EncodeToString] in Heq; try discriminate; [done|].
  injection Heq as Hhi Hlo Hrest. f_equal; [|now apply IH].
  rewrite <- (hex_digits_byte v), <- (hex_digits_byte v').
  now rewrite Hhi, Hlo.
Qed.

Lemma sign_HMAC_SHA256 message secret :
  sign message secret
  = ("sha256=" ++ hex.EncodeToString (HMAC_SHA256 secret message))%string.
Proof. reflexivity. Qed.

Lemma append_inv_head (s x y : string) :
  (s ++ x)%string = (s ++ y)%string → x = y.
Proof.
  induction s as [|ch s IH]; intros Heq; [exact Heq|].
  apply IH. now injection Heq.
Qed.

Lemma verify_true body secret secret' :
  verify body (sign body secret) secret' = true ↔
  HMAC_SHA256 secret' body = HMAC_SHA256 secret body.
Proof.
  unfold verify. rewrite String.eqb_eq, !sign_HMAC_SHA256. split.
  - intros Heq. symmetry.
    now apply EncodeToString_inj, (append_inv_head "sha256=").
  - now intros ->.
Qed.

(** A string comparison that does not succeed fails. *)
Lemma verify_false body secret secret' :
  verify body (sign body secret) secret' = false ↔
  HMAC_SHA256 secret' body ≠ HMAC_SHA256 secret body.
Proof.
  rewrite <- verify_true.
  destruct (verify body (sign body secret) secret'); split; intros H;
    try done; now contradict H.
Qed.

(** Zero bytes after a key are the zero bytes [New] fills the block with, as
    long as the key with them is no longer than the block. *)
Lemma keyBlock_zero_padded key n :
  (length key + n ≤ sha256.BlockSize)%nat →
  hmac.keyBlock (key ++ replicate n x00) = hmac.keyBlock key.
Proof.
  intros Hlen. unfold hmac.keyBlock.
  assert ((sha256.BlockSize <? length (key ++ replicate n x00))%nat = false)
    as -> by (apply Nat.ltb_ge; rewrite length_app, length_replicate; lia).
  assert ((sha256.BlockSize <? length key)%nat = false)
    as -> by (apply Nat.ltb_ge; lia).
  cbv zeta. rewrite length_app, length_replicate, <- app_assoc. f_equal.
  rewrite <- replicate_add. f_equal. lia.
Qed.

(** C8, as the code has it: the signature is ["sha256="] followed by the
    hexadecimal HMAC-SHA256 of the body under the secret; verifying it with
    the signing secret succeeds; verifying it with another secret succeeds
    exactly when that secret gives the same HMAC-SHA256 for the body, and
    fails exactly when it gives another one.  The HMAC is the same whenever
    the two secrets fill the 64-byte key block alike, which a secret and the
    same secret followed by zero bytes do as long as the longer of the two
    has at most 64 bytes; one zero byte more and the secret is hashed into
    the block: the secret of the test followed by 59 zero bytes is rejected.
    The two secrets of the webhook test reject each other's signatures. *)
Theorem sign_verify body secret wrongSecret :
  sign body secret
  = ("sha256=" ++ hex.EncodeToString (HMAC_SHA256 secret body))%string ∧
  verify body (sign body secret) secret = true ∧
  (verify body (sign body secret) wrongSecret = true ↔
   HMAC_SHA256 wrongSecret body = HMAC_SHA256 secret body) ∧
  (hmac.keyBlock wrongSecret = hmac.keyBlock secret →
   verify body (sign body secret) wrongSecret = true) ∧
  (verify body (sign body secret) wrongSecret = false ↔
   HMAC_SHA256 wrongSecret body ≠ HMAC_SHA256 secret body) ∧
  (∀ n, (length secret + n ≤ 64)%nat →
        verify body (sign body secret) (secret ++ replicate n x00) = true ∧
        verify body (sign body (secret ++ replicate n x00)) secret = true) ∧
  verify testBody (sign testBody testSecret) (testSecret ++ replicate 58 x00)
  = true ∧
  verify testBody (sign testBody testSecret) (testSecret ++ replicate 59 x00)
  = false ∧
  verify testBody (sign testBody testWrongSecret) testSecret = false ∧
  verify testBody (sign testBody testSecret) testWrongSecret = false.
Proof.
  split; [apply sign_HMAC_SHA256|]. split; [now apply verify_true|].
  split; [apply verify_true|].
  split.
  { intros Hkey. apply verify_true. unfold HMAC_SHA256. now rewrite Hkey. }
  split; [apply verify_false|].
  split.
  { intros n Hlen.
    pose proof (keyBlock_zero_padded secret n Hlen) as Hkey.
    split; apply verify_true; unfold HMAC_SHA256; now rewrite Hkey. }
  repeat split; vm_compute; reflexivity.
Qed.

Lemma sign_verify_witness :
  hmac.keyBlock paddedSecret = hmac.keyBlock testSecret ∧
  verify testBody (sign testBody testSecret) paddedSecret = true ∧
  (length testSecret + 58 ≤ 64)%nat ∧
  verify testBody (sign testBody testSecret) (testSecret ++ replicate 58 x00)
  = true ∧
  verify testBody (sign testBody (testSecret ++ replicate 58 x00)) testSecret
  = true.
Proof.
  assert (hmac.keyBlock paddedSecret = hmac.keyBlock testSecret) as Hkey
    by reflexivity.
  assert (length testSecret + 58 ≤ 64)%nat as Hlen by (vm_compute; lia).
  pose proof (sign_verify testBody testSecret paddedSecret)
    as (_ & _ & _ & Hblock & _ & Hpad & _).
  split; [exact Hkey|]. split; [exact (Hblock Hkey)|].
  split; [exact Hlen|]. exact (Hpad 58%nat Hlen).
Defined.

(** C8, as stated, fails: the secret of the test followed by a zero byte is
    a different secret, and the signature made with the secret of the test
    verifies against it. *)
Lemma verify_accepts_padded_secret :
  paddedSecret ≠ testSecret ∧
  verify testBody (sign testBody testSecret) paddedSecret = true.
Proof. split; [discriminate|vm_compute; reflexivity]. Qed.


(** * Further properties of [CalcCounts] and [generateTimestamps] *)

(** The two outcomes of [CalcCounts], with the events taken as they are
    passed: sorting them first changes nothing. *)
Lemma CalcCounts_cases heap start end_ cs es :
  (allCreated heap cs ∧
   CalcCounts heap start end_ cs es
   = a8n.Ok (map (fun t => total t (map (contribution heap es t) (remove_dups cs)))
                 (generateTimestamps start end_))) ∨
  (¬ allCreated heap cs ∧
   CalcCounts heap start end_ cs es = a8n.Err a8n.MissingCreationTime).
Proof.
  destruct (created_dec heap cs) as [Hall|Hex].
  - left. split; [done|]. unfold CalcCounts.
    rewrite CalcCountsWith_created by done. f_equal.
    apply map_ext. intros t. f_equal. apply map_ext. intros c.
    apply contribution_Permutation, insertionSort_Permutation.
  - right. split; [|now apply CalcCountsWith_missing].
    intros Hall. apply Exists_exists in Hex as (c & Hc & Hmiss).
    unfold allCreated in Hall. rewrite Forall_forall in Hall.
    destruct (Hall c Hc) as [openedAt Ho]. now apply (Hmiss openedAt).
Qed.

(** The snapshots of a successful run. *)
Lemma CalcCounts_Ok heap start end_ cs es counts :
  CalcCounts heap start end_ cs es = a8n.Ok counts →
  allCreated heap cs ∧
  counts = map (fun t => total t (map (contribution heap es t) (remove_dups cs)))
               (generateTimestamps start end_).
Proof.
  intros Hok.
  destruct (CalcCounts_cases heap start end_ cs es) as [[Hall Heq]|[_ Heq]];
    rewrite Heq in Hok; [|discriminate].
  now injection Hok as <-.
Qed.

(** X1: [CalcCounts] returns snapshots exactly when every changeset has an
    external creation timestamp; no event, window or order of the arguments
    makes it fail otherwise. *)
Theorem CalcCounts_succeeds_iff_created heap start end_ cs es :
  (∃ counts, CalcCounts heap start end_ cs es = a8n.Ok counts) ↔
  allCreated heap cs.
Proof.
  split.
  - intros [counts Hok]. now apply CalcCounts_Ok in Hok as [Hall _].
  - intros Hall.
    destruct (CalcCounts_cases heap start end_ cs es) as [[_ Heq]|[Hno _]];
      [eauto|done].
Qed.

(** X2: a successful run returns one snapshot per sampled day and nothing
    else: [(end - start) / 24h + 1] of them when [start ≤ end] (the quotient
    rounded down), none when [end] is before [start]. *)
Theorem CalcCounts_length heap start end_ cs es counts :
  CalcCounts heap start end_ cs es = a8n.Ok counts →
  Z.of_nat (length counts)
  = Z.max 0 ((end_ - start) / (24 * time.Hour) + 1).
Proof.
  intros Hok. apply CalcCounts_Ok in Hok as [_ ->].
  rewrite length_map, generateTimestamps_length. unfold samples.
  change (24 * time.Hour) with day. lia.
Qed.

Lemma CalcCounts_length_witness :
  let heap := heapOf [ghChangesetCreated 1 (daysAgo 2)] in
  let counts := [Build_ChangesetCounts (daysAgo 2) 1 0 0 1 0 0 0;
                 Build_ChangesetCounts (daysAgo 1) 1 0 0 1 0 0 0;
                 Build_ChangesetCounts now 1 0 0 1 0 0 0] in
  CalcCounts heap (daysAgo 3 + 1) now [1%positive] [] = a8n.Ok counts ∧
  Z.of_nat (length counts)
  = Z.max 0 ((now - (daysAgo 3 + 1)) / (24 * time.Hour) + 1).
Proof.
  intros heap counts.
  assert (CalcCounts heap (daysAgo 3 + 1) now [1%positive] [] = a8n.Ok counts)
    as Hok by reflexivity.
  split; [exact Hok|].
  exact (CalcCounts_length heap (daysAgo 3 + 1) now [1%positive] [] counts Hok).
Defined.

(** X3: for [start ≤ end] the first sampled instant lies in
    [[start, start + 24h)], so no day at the beginning of the window is left
    out; it is [start] itself when [end - start] is a whole number of
    days. *)
Theorem generateTimestamps_first_within_a_day start end_ :
  start ≤ end_ →
  ∃ first,
    head (generateTimestamps start end_) = Some first ∧
    start ≤ first < time.Add start (24 * time.Hour) ∧
    ((end_ - start) mod (24 * time.Hour) = 0 → first = start).
Proof.
  intros Hle. change (24 * time.Hour) with day. unfold time.Add.
  assert (0 ≤ (end_ - start) / day)
    by (apply Z.div_pos; [lia|now rewrite day_eq]).
  assert (samples start end_ = S (Z.to_nat ((end_ - start) / day))) as Hn
    by (unfold samples; lia).
  exists (end_ - Z.of_nat (samples start end_ - 1 - 0) * day). split.
  - rewrite head_lookup. apply generateTimestamps_lookup. split; [lia|done].
  - rewrite Hn.
    replace (S _ - 1 - 0)%nat with (Z.to_nat ((end_ - start) / day)) by lia.
    rewrite Z2Nat.id by done.
    assert (0 < day) as Hday by now rewrite day_eq.
    pose proof (Z.mod_pos_bound (end_ - start) day Hday) as Hmod.
    pose proof (Z.div_mod (end_ - start) day) as Hdiv.
    split; [lia|]. intros Hzero. lia.
Qed.

Lemma generateTimestamps_first_within_a_day_witness :
  daysAgo 3 + 1 ≤ now ∧
  head (generateTimestamps (daysAgo 3 + 1) now) = Some (daysAgo 2) ∧
  daysAgo 3 + 1 ≤ daysAgo 2 < time.Add (daysAgo 3 + 1) (24 * time.Hour).
Proof.
  assert (daysAgo 3 + 1 ≤ now) as Hle by (vm_compute; discriminate).
  split; [exact Hle|].
  destruct (generateTimestamps_first_within_a_day (daysAgo 3 + 1) now Hle)
    as (first & Hhead & Hrange & _).
  assert (first = daysAgo 2) as ->
    by (vm_compute in Hhead; injection Hhead as <-; reflexivity).
  split; [exact Hhead|exact Hrange].
Defined.

Lemma samples_mono start start' end_ :
  start' ≤ start → (samples start end_ ≤ samples start' end_)%nat.
Proof.
  intros Hle. unfold samples.
  assert ((end_ - start) / day ≤ (end_ - start') / day)
    by (apply Z.div_le_mono; [now rewrite day_eq|lia]).
  lia.
Qed.

Lemma backwards_app t n m :
  backwards t (n + m) = backwards t n ++ backwards (t - Z.of_nat n * day) m.
Proof.
  revert t. induction n as [|n IH]; intros t.
  - cbn [Nat.add app]. change (backwards t 0) with (@nil Z). cbn [app].
    f_equal. lia.
  - cbn [Nat.add]. rewrite !backwards_S, IH. cbn [app]. do 3 f_equal. lia.
Qed.

(** X4: moving [start] to an earlier instant only adds instants in front:
    the instants sampled for [[start, end]] are the last ones of those
    sampled for [[start', end]], for every [start' ≤ start]. *)
Theorem generateTimestamps_earlier_start start start' end_ :
  start' ≤ start →
  generateTimestamps start end_ `suffix_of` generateTimestamps start' end_.
Proof.
  intros Hle. rewrite !generateTimestamps_spec.
  pose proof (samples_mono start start' end_ Hle) as Hn.
  replace (samples start' end_)
    with (samples start end_ + (samples start' end_ - samples start end_))%nat
    by lia.
  rewrite backwards_app, rev_app_distr. now eexists.
Qed.

Lemma generateTimestamps_earlier_start_witness :
  daysAgo 3 - 7 ≤ daysAgo 1 ∧
  generateTimestamps (daysAgo 1) now
  `suffix_of` generateTimestamps (daysAgo 3 - 7) now.
Proof.
  assert (daysAgo 3 - 7 ≤ daysAgo 1) as Hle by (vm_compute; discriminate).
  split; [exact Hle|].
  exact (generateTimestamps_earlier_start (daysAgo 1) (daysAgo 3 - 7) now Hle).
Defined.

Lemma generateTimestamps_instant t : generateTimestamps t t = [t].
Proof.
  rewrite generateTimestamps_spec. unfold samples.
  rewrite Z.sub_diag, Z.div_0_l by now rewrite day_eq.
  change (Z.to_nat (0 + 1)) with 1%nat. now rewrite backwards_S.
Qed.

(** X5: a snapshot depends on its own instant only, not on the window it was
    sampled in: every snapshot of a run is the one snapshot of the run over
    the window that starts and ends at its instant. *)
Theorem CalcCounts_snapshot_of_instant heap start end_ cs es counts count :
  CalcCounts heap start end_ cs es = a8n.Ok counts →
  count ∈ counts →
  CalcCounts heap (Time count) (Time count) cs es = a8n.Ok [count].
Proof.
  intros Hok Hin. apply CalcCounts_Ok in Hok as [Hall ->].
  apply list_elem_of_fmap in Hin as (t & -> & _). rewrite total_Time.
  destruct (CalcCounts_cases heap t t cs es) as [[_ ->]|[Hno _]]; [|done].
  now rewrite generateTimestamps_instant.
Qed.

Lemma CalcCounts_snapshot_of_instant_witness :
  let heap := heapOf [ghChangesetCreated 1 (daysAgo 2)] in
  let es := [fakeEvent (daysAgo 1) a8n.ChangesetEventKindGitHubClosed 1] in
  let counts := [Build_ChangesetCounts (daysAgo 2) 1 0 0 1 0 0 0;
                 Build_ChangesetCounts (daysAgo 1) 1 0 1 0 0 0 0;
                 Build_ChangesetCounts now 1 0 1 0 0 0 0] in
  let count := Build_ChangesetCounts (daysAgo 1) 1 0 1 0 0 0 0 in
  CalcCounts heap (daysAgo 2) now [1%positive] es = a8n.Ok counts ∧
  count ∈ counts ∧
  CalcCounts heap (daysAgo 1) (daysAgo 1) [1%positive] es = a8n.Ok [count].
Proof.
  intros heap es counts count.
  assert (CalcCounts heap (daysAgo 2) now [1%positive] es = a8n.Ok counts)
    as Hok by reflexivity.
  assert (count ∈ counts) as Hin
    by (apply list_elem_of_further, list_elem_of_here).
  split; [exact Hok|]. split; [exact Hin|].
  exact (CalcCounts_snapshot_of_instant heap (daysAgo 2) now [1%positive] es
           counts count Hok Hin).
Defined.

(** X6: without changesets every sampled day gets a snapshot with all
    counters zero, whatever the events: an event whose changeset is not
    passed is never counted, and the run cannot fail. *)
Theorem CalcCounts_no_changesets heap start end_ es :
  CalcCounts heap start end_ [] es
  = a8n.Ok (map newCounts (generateTimestamps start end_)).
Proof.
  destruct (CalcCounts_cases heap start end_ [] es) as [[_ ->]|[Hno _]].
  - reflexivity.
  - destruct Hno. constructor.
Qed.

(** X7: [byChangeset] is keyed by pointer, so a changeset that is passed
    more than once is counted once: dropping the repeated pointers from [cs]
    leaves the result unchanged. *)
Theorem CalcCounts_repeated_changeset heap start end_ cs es :
  CalcCounts heap start end_ (remove_dups cs) es
  = CalcCounts heap start end_ cs es.
Proof.
  assert (remove_dups (remove_dups cs) = remove_dups cs) as Hidem.
  { generalize (NoDup_remove_dups cs). generalize (remove_dups cs).
    induction 1 as [|x l Hx Hl IH]; cbn [remove_dups]; [done|].
    destruct (decide_rel _ x l) as [Hin|_]; [done|]. now rewrite IH. }
  destruct (CalcCounts_cases heap start end_ cs es) as [[Hall ->]|[Hno ->]];
    destruct (CalcCounts_cases heap start end_ (remove_dups cs) es)
      as [[Hall' ->]|[Hno' ->]]; try done.
  - now rewrite Hidem.
  - destruct Hno'. now apply allCreated_remove_dups.
  - destruct Hno. unfold allCreated in *. rewrite Forall_forall in *.
    intros c Hc. apply Hall'. now apply elem_of_remove_dups.
Qed.

Lemma allCreated_app heap cs1 cs2 :
  allCreated heap (cs1 ++ cs2) ↔ allCreated heap cs1 ∧ allCreated heap cs2.
Proof. unfold allCreated. apply Forall_app. Qed.

Lemma total_app t l1 l2 :
  total t (l1 ++ l2) = plus (total t l1) (total t l2).
Proof.
  unfold total at 1. rewrite foldl_app. fold (total t l1).
  rewrite foldl_plus_out by apply total_inRange. now rewrite total_Time.
Qed.

Lemma remove_dups_app_disjoint (cs1 cs2 : list loc) :
  (∀ c, c ∈ cs1 → c ∉ cs2) →
  remove_dups (cs1 ++ cs2) ≡ₚ remove_dups cs1 ++ remove_dups cs2.
Proof.
  intros Hdis. apply NoDup_Permutation.
  - apply NoDup_remove_dups.
  - apply NoDup_app. split; [apply NoDup_remove_dups|].
    split; [|apply NoDup_remove_dups].
    intros c. rewrite !elem_of_remove_dups. apply Hdis.
  - intros c. rewrite elem_of_app, !elem_of_remove_dups. apply elem_of_app.
Qed.

(** X8: the changesets can be counted in parts.  When two lists of
    changesets share no pointer, the snapshots for both together are the
    counter-wise [int32] sums of the snapshots for each of them. *)
Theorem CalcCounts_disjoint_parts heap start end_ cs1 cs2 es counts1 counts2 :
  (∀ c, c ∈ cs1 → c ∉ cs2) →
  CalcCounts heap start end_ cs1 es = a8n.Ok counts1 →
  CalcCounts heap start end_ cs2 es = a8n.Ok counts2 →
  CalcCounts heap start end_ (cs1 ++ cs2) es
  = a8n.Ok (zip_with plus counts1 counts2).
Proof.
  intros Hdis Hok1 Hok2.
  apply CalcCounts_Ok in Hok1 as [Hall1 ->].
  apply CalcCounts_Ok in Hok2 as [Hall2 ->].
  destruct (CalcCounts_cases heap start end_ (cs1 ++ cs2) es)
    as [[_ ->]|[Hno _]]; [|destruct Hno; now apply allCreated_app].
  f_equal. induction (generateTimestamps start end_) as [|t ts IH]; [done|].
  cbn [map zip_with]. f_equal; [|exact IH].
  rewrite <- total_app, <- map_app.
  apply total_Permutation, Permutation_map, remove_dups_app_disjoint, Hdis.
Qed.

Lemma CalcCounts_disjoint_parts_witness :
  let heap := heapOf [ghChangesetCreated 1 (daysAgo 2);
                      ghChangesetCreated 2 (daysAgo 1)] in
  let es := [fakeEvent (daysAgo 1) a8n.ChangesetEventKindGitHubMerged 1] in
  let counts1 := [Build_ChangesetCounts (daysAgo 2) 1 0 0 1 0 0 0;
                  Build_ChangesetCounts (daysAgo 1) 1 1 0 0 0 0 0;
                  Build_ChangesetCounts now 1 1 0 0 0 0 0] in
  let counts2 := [Build_ChangesetCounts (daysAgo 2) 0 0 0 0 0 0 0;
                  Build_ChangesetCounts (daysAgo 1) 1 0 0 1 0 0 0;
                  Build_ChangesetCounts now 1 0 0 1 0 0 0] in
  (∀ c, c ∈ [1%positive] → c ∉ [2%positive]) ∧
  CalcCounts heap (daysAgo 2) now [1%positive] es = a8n.Ok counts1 ∧
  CalcCounts heap (daysAgo 2) now [2%positive] es = a8n.Ok counts2 ∧
  CalcCounts heap (daysAgo 2) now [1; 2]%positive es
  = a8n.Ok [Build_ChangesetCounts (daysAgo 2) 1 0 0 1 0 0 0;
            Build_ChangesetCounts (daysAgo 1) 2 1 0 1 0 0 0;
            Build_ChangesetCounts now 2 1 0 1 0 0 0].
Proof.
  intros heap es counts1 counts2.
  assert (∀ c, c ∈ [1%positive] → c ∉ [2%positive]) as Hdis.
  { intros c Hc Hc'. apply list_elem_of_singleton in Hc, Hc'. congruence. }
  assert (CalcCounts heap (daysAgo 2) now [1%positive] es = a8n.Ok counts1)
    as Hok1 by reflexivity.
  assert (CalcCounts heap (daysAgo 2) now [2%positive] es = a8n.Ok counts2)
    as Hok2 by reflexivity.
  split; [exact Hdis|]. split; [exact Hok1|]. split; [exact Hok2|].
  exact (CalcCounts_disjoint_parts heap (daysAgo 2) now [1%positive]
           [2%positive] es counts1 counts2 Hdis Hok1 Hok2).
Defined.

(** X9: sorting the events is of no consequence for the result: whatever
    permutation of the events the sorting step produces, also none at all,
    [CalcCounts] returns the same value. *)
Theorem CalcCounts_sorting_redundant (sorter : Events → Events)
    heap start end_ cs es :
  (∀ l, sorter l ≡ₚ l) →
  CalcCountsWith sorter heap start end_ cs es
  = CalcCounts heap start end_ cs es ∧
  CalcCountsWith (fun l => l) heap start end_ cs es
  = CalcCounts heap start end_ cs es.
Proof.
  intros Hs. split; apply CalcCountsWith_Permutation;
    done || apply insertionSort_Permutation.
Qed.

Lemma CalcCounts_sorting_redundant_witness :
  let heap := heapOf [ghChangesetCreated 1 (daysAgo 4)] in
  let es := [fakeEvent (daysAgo 1) a8n.ChangesetEventKindGitHubMerged 1;
             fakeEvent (daysAgo 3) a8n.ChangesetEventKindGitHubClosed 1;
             fakeEvent (daysAgo 2) a8n.ChangesetEventKindGitHubReopened 1] in
  (∀ l : Events, rev l ≡ₚ l) ∧
  CalcCountsWith (@rev Event) heap (daysAgo 5) now [1%positive] es
  = CalcCounts heap (daysAgo 5) now [1%positive] es.
Proof.
  intros heap es.
  assert (∀ l : Events, rev l ≡ₚ l) as Hrev
    by (intros l; symmetry; apply Permutation_rev).
  split; [exact Hrev|].
  exact (proj1 (CalcCounts_sorting_redundant (@rev Event) heap (daysAgo 5) now
                  [1%positive] es Hrev)).
Defined.

Lemma applyKind_unhandled count kind :
  unhandled kind → applyKind count kind = count.
Proof. intros (Hc & Hr & Hm). now destruct kind. Qed.

Lemma foldl_applyEvent_keep (keep : Event → Prop) `{∀ e, Decision (keep e)}
    t evs count :
  (∀ e, e ∈ evs → ¬ keep e → ∀ x, applyEvent t x e = x) →
  foldl (applyEvent t) count (filter keep evs)
  = foldl (applyEvent t) count evs.
Proof.
  revert count. induction evs as [|e evs IH]; intros count Hdrop; [done|].
  rewrite filter_cons. destruct (decide (keep e)) as [Hk|Hk]; cbn [foldl].
  - apply IH. intros e' He'. apply Hdrop. now right.
  - rewrite (Hdrop e) by (done || left). apply IH.
    intros e' He'. apply Hdrop. now right.
Qed.

Lemma group_filter (keep : Event → Prop) `{∀ e, Decision (keep e)} id es :
  group id (filter keep es) = filter keep (group id es).
Proof.
  unfold group. induction es as [|e es IH]; [done|].
  rewrite !filter_cons.
  destruct (decide (keep e)), (decide (Changeset e = id));
    rewrite ?filter_cons, ?decide_True, ?decide_False by done;
    now rewrite IH.
Qed.

Lemma generateTimestamps_le_end start end_ t :
  t ∈ generateTimestamps start end_ → t ≤ end_.
Proof.
  intros Hin. apply list_elem_of_lookup in Hin as [i Hi].
  apply generateTimestamps_lookup in Hi as [_ ->]. rewrite day_eq. lia.
Qed.

(** X10: events that cannot matter are ignored.  Dropping from [es] any
    events that are later than [end], or of a kind other than closed,
    reopened and merged, or of a changeset that is not in [cs], leaves the
    result unchanged. *)
Theorem CalcCounts_ignored_events (keep : Event → Prop)
    `{∀ e, Decision (keep e)} heap start end_ cs es :
  (∀ e, e ∈ es → ¬ keep e →
        end_ < Timestamp e ∨ unhandled (Type_ e) ∨
        ∀ c, c ∈ cs → a8n.ID (heap c) ≠ Changeset e) →
  CalcCounts heap start end_ cs (filter keep es)
  = CalcCounts heap start end_ cs es.
Proof.
  intros Hdrop.
  destruct (CalcCounts_cases heap start end_ cs es) as [[Hall ->]|[Hno ->]];
    destruct (CalcCounts_cases heap start end_ cs (filter keep es))
      as [[Hall' ->]|[Hno' ->]]; try done.
  f_equal. apply map_ext_Forall, Forall_forall. intros t Ht.
  apply generateTimestamps_le_end in Ht.
  f_equal. apply map_ext_Forall, Forall_forall. intros c Hc.
  rewrite elem_of_remove_dups in Hc.
  unfold contribution.
  destruct (a8n.ExternalCreatedAt (heap c)) as [openedAt|]; [|done].
  unfold countChangeset. cbv zeta. cbn [newCounts Time].
  destruct (_ || _); [|done].
  rewrite group_filter. apply foldl_applyEvent_keep.
  intros e He Hk x. unfold group in He.
  apply list_elem_of_filter in He as [Hid He].
  unfold applyEvent, time.After.
  destruct (Hdrop e He Hk) as [Hlate|[Hkind|Hother]].
  - destruct (Z.ltb_spec t (Timestamp e)); [done|lia].
  - destruct (_ <? _); [done|now apply applyKind_unhandled].
  - now destruct (Hother c Hc).
Qed.

Lemma CalcCounts_ignored_events_witness :
  let heap := heapOf [ghChangesetCreated 1 (daysAgo 2)] in
  let merged := fakeEvent (daysAgo 1) a8n.ChangesetEventKindGitHubMerged 1 in
  let late := fakeEvent (now + 1) a8n.ChangesetEventKindGitHubClosed 1 in
  let review := reviewedEvent 1 (daysAgo 1) in
  let stray := fakeEvent (daysAgo 1) a8n.ChangesetEventKindGitHubClosed 7 in
  let es := [late; merged; review; stray] in
  filter (fun e => Type_ e = a8n.ChangesetEventKindGitHubMerged) es
  = [merged] ∧
  CalcCounts heap (daysAgo 2) now [1%positive] [merged]
  = CalcCounts heap (daysAgo 2) now [1%positive] es.
Proof.
  intros heap merged late review stray es.
  assert (filter (fun e => Type_ e = a8n.ChangesetEventKindGitHubMerged) es
          = [merged]) as Hfilter by reflexivity.
  split; [exact Hfilter|]. rewrite <- Hfilter.
  apply (CalcCounts_ignored_events
           (fun e => Type_ e = a8n.ChangesetEventKindGitHubMerged)
           heap (daysAgo 2) now [1%positive] es).
  intros e He Hk.
  apply elem_of_cons in He as [->|He]; [left; reflexivity|].
  apply elem_of_cons in He as [->|He]; [now destruct Hk|].
  apply elem_of_cons in He as [->|He];
    [right; left; repeat split; discriminate|].
  apply list_elem_of_singleton in He as ->.
  right; right. intros c Hc. apply list_elem_of_singleton in Hc as ->.
  discriminate.
Defined.

(** ** The counters as numbers of changesets and events *)

Lemma wrap32_congr u v k : u = v + k * 2 ^ 32 → wrap32 u = wrap32 v.
Proof. intros ->. apply wrap32_shift. Qed.

(** How often [kind] occurs in a list of kinds. *)
Lemma foldl_applyKind_counters kinds :
  let n kind := Z.of_nat (length (filter (fun k => k = kind) kinds)) in
  ∀ x, inRange x →
  foldl applyKind x kinds
  = {| Time := Time x; Total := Total x;
       Merged := wrap32 (Merged x + n a8n.ChangesetEventKindGitHubMerged);
       Closed := wrap32 (Closed x + n a8n.ChangesetEventKindGitHubClosed
                         - n a8n.ChangesetEventKindGitHubReopened);
       Open := wrap32 (Open x - n a8n.ChangesetEventKindGitHubClosed
                       + n a8n.ChangesetEventKindGitHubReopened
                       - n a8n.ChangesetEventKindGitHubMerged);
       OpenApproved := OpenApproved x;
       OpenChangesRequested := OpenChangesRequested x;
       OpenPending := OpenPending x |}.
Proof.
  induction kinds as [|kind kinds IH]; intros n x Hx.
  - destruct Hx as (?&?&?&?&?&?&?). subst n. cbn.
    apply counts_eq; cbn; trivial; symmetry;
      match goal with
      | |- wrap32 ?u = ?v => replace u with v by lia
      end; now apply wrap32_id.
  - cbn [foldl]. rewrite IH by now apply applyKind_inRange.
    subst n. cbv beta. rewrite !filter_cons.
    destruct kind; cbn [applyKind Time Total Merged Closed Open OpenApproved
                        OpenChangesRequested OpenPending];
      repeat match goal with
             | |- context [decide (?a = ?b)] =>
                 destruct (decide (a = b)); try congruence
             end;
      cbn [length]; unfold incr, decr;
      apply counts_eq; cbn [Time Total Merged Closed Open OpenApproved
                            OpenChangesRequested OpenPending]; trivial;
      try match goal with
          | |- wrap32 ?u = wrap32 ?v =>
              match u with
              | context [wrap32 ?z] =>
                  let k := fresh "k" in
                  let Hk := fresh "Hk" in
                  destruct (wrap32_multiple z) as [k Hk]; rewrite Hk;
                  apply (wrap32_congr _ _ k); lia
              end
          end;
      f_equal; lia.
Qed.

Lemma length_filter_fmap_kind kind (evs : Events) :
  length (filter (fun k => k = kind) (map Type_ evs))
  = length (filter (fun e => Type_ e = kind) evs).
Proof.
  induction evs as [|e evs IH]; [done|]. cbn [map].
  rewrite !filter_cons. destruct (decide (Type_ e = kind)); cbn [length];
    now rewrite IH.
Qed.

Lemma occurrences_kinds kind t id es :
  Z.of_nat (length (filter (fun k => k = kind)
                      (map Type_ (filter (fun e => Timestamp e ≤ t)
                                         (group id es)))))
  = occurrences kind t id es.
Proof.
  unfold occurrences. now rewrite length_filter_fmap_kind, list_filter_filter.
Qed.

(** The contribution of one changeset, in numbers of events. *)
Lemma contribution_counters heap es t c :
  contribution heap es t c
  = if decide (openedBy heap t c)
    then {| Time := t; Total := 1;
            Merged := wrap32 (occurrences a8n.ChangesetEventKindGitHubMerged t
                                (a8n.ID (heap c)) es);
            Closed := wrap32 (occurrences a8n.ChangesetEventKindGitHubClosed t
                                (a8n.ID (heap c)) es
                              - occurrences a8n.ChangesetEventKindGitHubReopened t
                                  (a8n.ID (heap c)) es);
            Open := wrap32 (1 - occurrences a8n.ChangesetEventKindGitHubClosed t
                                  (a8n.ID (heap c)) es
                            + occurrences a8n.ChangesetEventKindGitHubReopened t
                                (a8n.ID (heap c)) es
                            - occurrences a8n.ChangesetEventKindGitHubMerged t
                                (a8n.ID (heap c)) es);
            OpenApproved := 0; OpenChangesRequested := 0; OpenPending := 0 |}
    else newCounts t.
Proof.
  rewrite contribution_group.
  destruct (a8n.ExternalCreatedAt (heap c)) as [openedAt|err] eqn:Hc.
  - destruct (Z.leb_spec openedAt t) as [Hle|Hgt].
    + rewrite decide_True by (exists openedAt; done).
      rewrite foldl_applyKind_counters by (unfold inRange, int32; cbn; lia).
      cbv zeta. rewrite !occurrences_kinds. reflexivity.
    + rewrite decide_False; [done|].
      intros (o & Ho & Hle). rewrite Hc in Ho. injection Ho as <-. lia.
  - rewrite decide_False; [done|]. intros (o & Ho & _). congruence.
Qed.

Lemma Zsum_filter {A} (P : A → Prop) `{∀ x, Decision (P x)} (g : A → Z) l :
  Zsum (map (fun x => if decide (P x) then g x else 0) l)
  = Zsum (map g (filter P l)).
Proof.
  induction l as [|x l IH]; [done|]. cbn [map Zsum foldr].
  rewrite filter_cons. fold (Zsum (map (fun x => if decide (P x) then g x else 0) l)).
  rewrite IH. destruct (decide (P x)); cbn [map Zsum foldr]; [done|].
  unfold Zsum. lia.
Qed.

Lemma Zsum_ones {A} (l : list A) : Zsum (map (fun _ => 1) l) = Z.of_nat (length l).
Proof.
  induction l as [|x l IH]; [done|]. cbn [map Zsum foldr length].
  fold (Zsum (map (fun _ : A => 1) l)). rewrite IH. lia.
Qed.

(** A counter of a sum of snapshots is the wrapped sum of the counters. *)
Lemma total_field (field : ChangesetCounts → Z) {A} (f : A → ChangesetCounts)
    (g : A → Z) t l :
  (∀ a b, field (plus a b) = add32 (field a) (field b)) →
  field (newCounts t) = 0 →
  (∀ x, x ∈ l → field (f x) = wrap32 (g x)) →
  field (total t (map f l)) = wrap32 (Zsum (map g l)).
Proof.
  intros Hplus Hzero Hf. unfold total.
  assert (∀ acc v, field acc = wrap32 v →
            field (foldl plus acc (map f l)) = wrap32 (v + Zsum (map g l))) as H.
  { induction l as [|x l IH]; intros acc v Hacc; cbn [map foldl Zsum foldr].
    - now rewrite Z.add_0_r.
    - fold (Zsum (map g l)). rewrite (IH (fun y Hy => Hf y (list_elem_of_further _ _ _ Hy))
                                         _ (v + g x)).
      + f_equal. lia.
      + rewrite Hplus, Hacc, Hf by left. unfold add32.
        now rewrite wrap32_wrap_l, wrap32_wrap_r. }
  rewrite (H (newCounts t) 0); [done|]. now rewrite Hzero.
Qed.

Lemma snapshot_counters heap es t l :
  let x := total t (map (contribution heap es t) l) in
  let n kind c := occurrences kind t (a8n.ID (heap c)) es in
  let sum g := Zsum (map (fun c => if decide (openedBy heap t c) then g c else 0) l) in
  Total x = wrap32 (sum (fun _ => 1)) ∧
  Merged x = wrap32 (sum (n a8n.ChangesetEventKindGitHubMerged)) ∧
  Closed x = wrap32 (sum (fun c => n a8n.ChangesetEventKindGitHubClosed c
                                   - n a8n.ChangesetEventKindGitHubReopened c)) ∧
  Open x = wrap32 (sum (fun c => 1 - n a8n.ChangesetEventKindGitHubClosed c
                                 + n a8n.ChangesetEventKindGitHubReopened c
                                 - n a8n.ChangesetEventKindGitHubMerged c)).
Proof.
  cbv zeta. repeat split.
  all: apply total_field; [reflexivity|reflexivity|].
  all: intros c _; rewrite contribution_counters;
    destruct (decide (openedBy heap t c)); reflexivity.
Qed.

(** X11: what the counters count.  In the snapshot at [t], [Total] is the
    number of distinct changesets opened at or before [t]; [Merged] is the
    number of merged events, [Closed] the number of closed events less the
    number of reopened events, and [Open] the number of those changesets less
    the closed, plus the reopened, less the merged events, where the events
    counted are those at or before [t] of those changesets, each as often as
    it occurs in [es] and for every changeset that has its ID.  All four are
    taken modulo [2^32] into the [int32] range. *)
Theorem CalcCounts_counters heap start end_ cs es counts count :
  CalcCounts heap start end_ cs es = a8n.Ok counts →
  count ∈ counts →
  let t := Time count in
  let live := filter (openedBy heap t) (remove_dups cs) in
  let n kind c := occurrences kind t (a8n.ID (heap c)) es in
  Total count = wrap32 (Z.of_nat (length live)) ∧
  Merged count
  = wrap32 (Zsum (map (n a8n.ChangesetEventKindGitHubMerged) live)) ∧
  Closed count
  = wrap32 (Zsum (map (fun c => n a8n.ChangesetEventKindGitHubClosed c
                                - n a8n.ChangesetEventKindGitHubReopened c)
                      live)) ∧
  Open count
  = wrap32 (Zsum (map (fun c => 1 - n a8n.ChangesetEventKindGitHubClosed c
                                + n a8n.ChangesetEventKindGitHubReopened c
                                - n a8n.ChangesetEventKindGitHubMerged c)
                      live)).
Proof.
  intros Hok Hin. apply CalcCounts_Ok in Hok as [Hall ->].
  apply list_elem_of_fmap in Hin as (t & -> & _). rewrite total_Time.
  cbv zeta.
  destruct (snapshot_counters heap es t (remove_dups cs)) as (HT & HM & HC & HO).
  cbv zeta in HT, HM, HC, HO.
  rewrite Zsum_filter in HT, HM, HC, HO. rewrite Zsum_ones in HT.
  done.
Qed.

Lemma CalcCounts_counters_witness :
  let heap := heapOf [ghChangesetCreated 1 (daysAgo 2);
                      ghChangesetCreated 2 (daysAgo 1)] in
  let merged := fakeEvent (daysAgo 1) a8n.ChangesetEventKindGitHubMerged 1 in
  let es := [merged; merged] in
  let counts := [Build_ChangesetCounts (daysAgo 2) 1 0 0 1 0 0 0;
                 Build_ChangesetCounts (daysAgo 1) 2 2 0 0 0 0 0;
                 Build_ChangesetCounts now 2 2 0 0 0 0 0] in
  let count := Build_ChangesetCounts now 2 2 0 0 0 0 0 in
  CalcCounts heap (daysAgo 2) now [1; 2]%positive es = a8n.Ok counts ∧
  count ∈ counts ∧
  Total count
  = wrap32 (Z.of_nat (length (filter (openedBy heap now)
                                (remove_dups [1; 2]%positive)))) ∧
  Merged count
  = wrap32 (Zsum (map (fun c => occurrences a8n.ChangesetEventKindGitHubMerged
                                  now (a8n.ID (heap c)) es)
                      (filter (openedBy heap now)
                         (remove_dups [1; 2]%positive)))).
Proof.
  intros heap merged es counts count.
  assert (CalcCounts heap (daysAgo 2) now [1; 2]%positive es = a8n.Ok counts)
    as Hok by reflexivity.
  assert (count ∈ counts) as Hin
    by (do 2 apply list_elem_of_further; apply list_elem_of_here).
  split; [exact Hok|]. split; [exact Hin|].
  destruct (CalcCounts_counters heap (daysAgo 2) now [1; 2]%positive es
              counts count Hok Hin) as (HT & HM & _).
  split; [exact HT|exact HM].
Defined.

Lemma Zsum_le {A} (g g' : A → Z) l :
  (∀ x, x ∈ l → g x ≤ g' x) → Zsum (map g l) ≤ Zsum (map g' l).
Proof.
  induction l as [|x l IH]; intros Hle; cbn [map Zsum foldr]; [done|].
  fold (Zsum (map g l)) (Zsum (map g' l)).
  pose proof (Hle x ltac:(left)) as Hx.
  assert (Zsum (map g l) ≤ Zsum (map g' l))
    by (apply IH; intros y Hy; apply Hle; now right).
  lia.
Qed.

Lemma Zsum_bound {A} (g : A → Z) m l :
  (∀ x, x ∈ l → 0 ≤ g x ≤ m) →
  0 ≤ Zsum (map g l) ≤ Z.of_nat (length l) * m.
Proof.
  induction l as [|x l IH]; intros Hb; cbn [map Zsum foldr length]; [lia|].
  fold (Zsum (map g l)).
  pose proof (Hb x ltac:(left)) as Hx.
  assert (0 ≤ Zsum (map g l) ≤ Z.of_nat (length l) * m)
    by (apply IH; intros y Hy; apply Hb; now right).
  nia.
Qed.

Lemma length_filter_mono {A} (P Q : A → Prop) `{∀ x, Decision (P x)}
    `{∀ x, Decision (Q x)} l :
  (∀ x, P x → Q x) → (length (filter P l) ≤ length (filter Q l))%nat.
Proof.
  intros HPQ. induction l as [|x l IH]; [done|]. rewrite !filter_cons.
  destruct (decide (P x)) as [HP|HP].
  - rewrite decide_True by auto. cbn [length]. lia.
  - destruct (decide (Q x)); cbn [length]; lia.
Qed.

Lemma occurrences_bounds kind t t' id es :
  t ≤ t' →
  0 ≤ occurrences kind t id es ≤ occurrences kind t' id es ∧
  occurrences kind t' id es ≤ Z.of_nat (length es).
Proof.
  intros Hle. unfold occurrences. split; [split; [lia|]|].
  - apply inj_le, length_filter_mono. intros e [Hk Ht]. split; [done|lia].
  - apply inj_le. etransitivity; [apply length_filter|]. apply length_filter.
Qed.

Lemma openedBy_mono heap t t' c :
  t ≤ t' → openedBy heap t c → openedBy heap t' c.
Proof. intros Hle (o & Ho & Hot). exists o. split; [done|lia]. Qed.

(** X12: [Total] and [Merged] never go down.  As long as the number of
    changesets times one more than the number of events stays below [2^31],
    both are non-negative and, from one snapshot to any later one of the same
    run, do not decrease; [Total] never exceeds the number of changesets. *)
Theorem CalcCounts_Total_Merged_grow heap start end_ cs es counts i j x y :
  Z.of_nat (length (remove_dups cs)) * (1 + Z.of_nat (length es)) < 2 ^ 31 →
  CalcCounts heap start end_ cs es = a8n.Ok counts →
  counts !! i = Some x → counts !! j = Some y → (i ≤ j)%nat →
  0 ≤ Total x ≤ Total y ∧
  Total y ≤ Z.of_nat (length (remove_dups cs)) ∧
  0 ≤ Merged x ≤ Merged y.
Proof.
  intros Hb Hok Hi Hj Hij. apply CalcCounts_Ok in Hok as [Hall ->].
  apply list_lookup_fmap_Some in Hi as (t & -> & Hi).
  apply list_lookup_fmap_Some in Hj as (t' & -> & Hj).
  assert (t ≤ t') as Hle.
  { apply generateTimestamps_lookup in Hi as [Hi ->].
    apply generateTimestamps_lookup in Hj as [Hj ->].
    rewrite day_eq.
    assert (Z.of_nat (samples start end_ - 1 - j)
            ≤ Z.of_nat (samples start end_ - 1 - i)) by lia.
    lia. }
  set (l := remove_dups cs) in *.
  destruct (snapshot_counters heap es t l) as (HT & HM & _).
  destruct (snapshot_counters heap es t' l) as (HT' & HM' & _).
  cbv beta zeta in HT, HM, HT', HM'. rewrite HT, HM, HT', HM'.
  pose (one t := fun c : loc => if decide (openedBy heap t c) then 1 else 0).
  pose (merged t := fun c : loc =>
         if decide (openedBy heap t c)
         then occurrences a8n.ChangesetEventKindGitHubMerged t
                (a8n.ID (heap c)) es
         else 0).
  assert (∀ c, 0 ≤ one t c ≤ one t' c ∧ one t' c ≤ 1) as Hone.
  { intros c. unfold one.
    destruct (decide (openedBy heap t c)) as [Ho|Ho].
    - rewrite decide_True by (eapply openedBy_mono; eauto). lia.
    - destruct (decide (openedBy heap t' c)); lia. }
  assert (∀ c, 0 ≤ merged t c ≤ merged t' c
               ∧ merged t' c ≤ Z.of_nat (length es)) as Hmerged.
  { intros c. unfold merged.
    pose proof (occurrences_bounds a8n.ChangesetEventKindGitHubMerged t t'
                  (a8n.ID (heap c)) es Hle) as [[H0 H1] H2].
    pose proof (occurrences_bounds a8n.ChangesetEventKindGitHubMerged t' t'
                  (a8n.ID (heap c)) es ltac:(lia)) as [[H0' _] _].
    destruct (decide (openedBy heap t c)) as [Ho|Ho].
    - rewrite decide_True by (eapply openedBy_mono; eauto). lia.
    - destruct (decide (openedBy heap t' c)); lia. }
  pose proof (Zsum_le (one t) (one t') l (fun c _ => proj2 (proj1 (Hone c)))) as H1.
  pose proof (Zsum_bound (one t) 1 l
                (fun c _ => conj (proj1 (proj1 (Hone c)))
                                 (Z.le_trans _ _ _ (proj2 (proj1 (Hone c)))
                                    (proj2 (Hone c))))) as H2.
  pose proof (Zsum_bound (one t') 1 l
                (fun c _ => conj (Z.le_trans _ _ _ (proj1 (proj1 (Hone c)))
                                    (proj2 (proj1 (Hone c))))
                                 (proj2 (Hone c)))) as H3.
  pose proof (Zsum_le (merged t) (merged t') l
                (fun c _ => proj2 (proj1 (Hmerged c)))) as H4.
  pose proof (Zsum_bound (merged t) (Z.of_nat (length es)) l
                (fun c _ => conj (proj1 (proj1 (Hmerged c)))
                                 (Z.le_trans _ _ _ (proj2 (proj1 (Hmerged c)))
                                    (proj2 (Hmerged c))))) as H5.
  pose proof (Zsum_bound (merged t') (Z.of_nat (length es)) l
                (fun c _ => conj (Z.le_trans _ _ _ (proj1 (proj1 (Hmerged c)))
                                    (proj2 (proj1 (Hmerged c))))
                                 (proj2 (Hmerged c)))) as H6.
  unfold one, merged in H1, H2, H3, H4, H5, H6.
  rewrite !wrap32_within by nia. lia.
Qed.

Lemma CalcCounts_Total_Merged_grow_witness :
  let heap := heapOf [ghChangesetCreated 1 (daysAgo 1)] in
  let es := [fakeEvent now a8n.ChangesetEventKindGitHubMerged 1] in
  let x := Build_ChangesetCounts (daysAgo 2) 0 0 0 0 0 0 0 in
  let y := Build_ChangesetCounts now 1 1 0 0 0 0 0 in
  let counts := [x; Build_ChangesetCounts (daysAgo 1) 1 0 0 1 0 0 0; y] in
  Z.of_nat (length (remove_dups [1%positive])) * (1 + Z.of_nat (length es))
  < 2 ^ 31 ∧
  CalcCounts heap (daysAgo 2) now [1%positive] es = a8n.Ok counts ∧
  counts !! 0%nat = Some x ∧ counts !! 2%nat = Some y ∧ (0 ≤ 2)%nat ∧
  0 ≤ Total x ≤ Total y ∧ 0 ≤ Merged x ≤ Merged y.
Proof.
  intros heap es x y counts.
  assert (Z.of_nat (length (remove_dups [1%positive]))
          * (1 + Z.of_nat (length es)) < 2 ^ 31) as Hb by reflexivity.
  assert (CalcCounts heap (daysAgo 2) now [1%positive] es = a8n.Ok counts)
    as Hok by reflexivity.
  assert (0 ≤ 2)%nat as Hij by lia.
  split; [exact Hb|]. split; [exact Hok|].
  split; [reflexivity|]. split; [reflexivity|]. split; [exact Hij|].
  destruct (CalcCounts_Total_Merged_grow heap (daysAgo 2) now [1%positive] es
              counts 0%nat 2%nat x y Hb Hok eq_refl eq_refl Hij)
    as (HT & _ & HM).
  split; [exact HT|exact HM].
Defined.

(** ** The methods of [Events] *)

Lemma Swap_Some es i j :
  (i < Events.Len es)%nat → (j < Events.Len es)%nat →
  ∃ a b, es !! i = Some a ∧ es !! j = Some b ∧
         Events.Swap es i j = Some (<[j:=a]> (<[i:=b]> es)).
Proof.
  unfold Events.Len, Events.Swap. intros Hi Hj.
  destruct (lookup_lt_is_Some_2 es i Hi) as [a Ha].
  destruct (lookup_lt_is_Some_2 es j Hj) as [b Hb].
  exists a, b. now rewrite Ha, Hb.
Qed.

Lemma insert_Permutation_cons (l : Events) i x y :
  l !! i = Some y → x :: l ≡ₚ y :: <[i:=x]> l.
Proof.
  revert i. induction l as [|z l IH]; intros [|i] Hi; try done; cbn in *.
  - injection Hi as ->. apply Permutation_swap.
  - rewrite Permutation_swap, (IH i Hi). apply Permutation_swap.
Qed.

Lemma exchange_Permutation (l : Events) i j a b :
  l !! i = Some a → l !! j = Some b → <[j:=a]> (<[i:=b]> l) ≡ₚ l.
Proof.
  revert i j. induction l as [|z l IH]; intros [|i] [|j] Hi Hj;
    try done; cbn in *.
  - now injection Hi as ->.
  - injection Hi as ->. symmetry. now apply insert_Permutation_cons.
  - injection Hj as ->. symmetry. now apply insert_Permutation_cons.
  - now rewrite (IH i j).
Qed.

(** X13: [Swap(i, j)] panics exactly when an index is outside the slice.
    Otherwise it exchanges the elements at [i] and [j] and touches nothing
    else: the length is kept, the result is a permutation of the slice, and
    swapping the same two indices again restores it. *)
Theorem Events_Swap_exchanges es i j :
  (Events.Swap es i j = None ↔
   (Events.Len es ≤ i)%nat ∨ (Events.Len es ≤ j)%nat) ∧
  ∀ es', Events.Swap es i j = Some es' →
    Events.Len es' = Events.Len es ∧
    es' !! i = es !! j ∧ es' !! j = es !! i ∧
    (∀ k, k ≠ i → k ≠ j → es' !! k = es !! k) ∧
    es' ≡ₚ es ∧
    Events.Swap es' i j = Some es.
Proof.
  split.
  - unfold Events.Swap, Events.Len. split.
    + destruct (es !! i) eqn:Hi; [|left; now apply lookup_ge_None].
      destruct (es !! j) eqn:Hj; [done|right; now apply lookup_ge_None].
    + intros [Hi|Hj].
      * now rewrite (lookup_ge_None_2 es i).
      * rewrite (lookup_ge_None_2 es j) by done. now destruct (es !! i).
  - intros es' Hswap. unfold Events.Swap in Hswap.
    destruct (es !! i) as [a|] eqn:Ha; [|done].
    destruct (es !! j) as [b|] eqn:Hb; [|done].
    injection Hswap as <-.
    pose proof (lookup_lt_Some _ _ _ Ha) as Hi.
    pose proof (lookup_lt_Some _ _ _ Hb) as Hj.
    assert (∀ k, <[j:=a]> (<[i:=b]> es) !! k
                 = if decide (k = j) then Some a
                   else if decide (k = i) then Some b else es !! k) as Hlook.
    { intros k. destruct (decide (k = j)) as [->|Hkj].
      - now rewrite list_lookup_insert_eq by now rewrite length_insert.
      - rewrite list_lookup_insert_ne by done.
        destruct (decide (k = i)) as [->|Hki].
        + now rewrite list_lookup_insert_eq.
        + now rewrite list_lookup_insert_ne. }
    assert (<[j:=a]> (<[i:=b]> es) !! i = Some b) as Hi'.
    { rewrite Hlook. destruct (decide (i = j)) as [->|_]; [congruence|].
      now rewrite decide_True. }
    assert (<[j:=a]> (<[i:=b]> es) !! j = Some a) as Hj'.
    { rewrite Hlook. now rewrite decide_True. }
    split; [unfold Events.Len; now rewrite !length_insert|].
    split; [congruence|]. split; [congruence|].
    assert (<[j:=b]> (<[i:=a]> (<[j:=a]> (<[i:=b]> es))) = es) as Hback.
    { apply list_eq. intros k.
      destruct (decide (k = j)) as [->|Hkj].
      - rewrite list_lookup_insert_eq by now rewrite !length_insert. done.
      - rewrite list_lookup_insert_ne by done.
        destruct (decide (k = i)) as [->|Hki].
        + rewrite list_lookup_insert_eq by now rewrite !length_insert. done.
        + rewrite list_lookup_insert_ne by done. rewrite Hlook.
          now rewrite !decide_False. }
    split; [|split].
    + intros k Hki Hkj. rewrite Hlook. now rewrite !decide_False.
    + now apply exchange_Permutation.
    + unfold Events.Swap. now rewrite Hi', Hj', Hback.
Qed.

Lemma Events_Swap_exchanges_witness :
  let closed := fakeEvent (daysAgo 3) a8n.ChangesetEventKindGitHubClosed 1 in
  let merged := fakeEvent (daysAgo 1) a8n.ChangesetEventKindGitHubMerged 1 in
  Events.Swap [merged; closed] 0 1 = Some [closed; merged] ∧
  Events.Swap [closed; merged] 0 1 = Some [merged; closed].
Proof.
  intros closed merged.
  assert (Events.Swap [merged; closed] 0 1 = Some [closed; merged]) as Hswap
    by reflexivity.
  split; [exact Hswap|].
  apply (proj2 (Events_Swap_exchanges [merged; closed] 0 1) _ Hswap).
Defined.

Lemma Less_Some es i j r :
  Events.Less es i j = Some r ↔
  ∃ a b, es !! i = Some a ∧ es !! j = Some b ∧
         r = (Timestamp a <? Timestamp b).
Proof.
  unfold Events.Less, time.Before. split.
  - destruct (es !! i) as [a|]; [|done]. destruct (es !! j) as [b|]; [|done].
    intros [= <-]. now exists a, b.
  - intros (a & b & -> & -> & ->). done.
Qed.

(** X14: [Less(i, j)] panics exactly when an index is outside the slice, and
    inside it is a strict weak ordering of the indices, as [sort.Sort]
    requires: no index is less than itself, the relation is transitive, and
    so is its complement, so that events with equal timestamps form classes
    of mutually unordered elements. *)
Theorem Events_Less_strict_weak_order es :
  (∀ i j, Events.Less es i j = None ↔
          (Events.Len es ≤ i)%nat ∨ (Events.Len es ≤ j)%nat) ∧
  (∀ i, (i < Events.Len es)%nat → Events.Less es i i = Some false) ∧
  (∀ i j k, Events.Less es i j = Some true → Events.Less es j k = Some true →
            Events.Less es i k = Some true) ∧
  (∀ i j k, Events.Less es i j = Some false → Events.Less es j k = Some false →
            Events.Less es i k = Some false) ∧
  (∀ i j, Events.Less es i j = Some false → Events.Less es j i = Some false →
          ∃ a b, es !! i = Some a ∧ es !! j = Some b ∧
                 Timestamp a = Timestamp b).
Proof.
  split; [|split; [|split; [|split]]].
  - intros i j. unfold Events.Less, Events.Len. split.
    + destruct (es !! i) eqn:Hi; [|left; now apply lookup_ge_None].
      destruct (es !! j) eqn:Hj; [done|right; now apply lookup_ge_None].
    + intros [Hi|Hj].
      * now rewrite (lookup_ge_None_2 es i).
      * rewrite (lookup_ge_None_2 es j) by done. now destruct (es !! i).
  - intros i Hi. destruct (lookup_lt_is_Some_2 es i Hi) as [a Ha].
    apply Less_Some. exists a, a. now rewrite Z.ltb_irrefl.
  - intros i j k Hij Hjk.
    apply Less_Some in Hij as (a & b & Ha & Hb & Hab).
    apply Less_Some in Hjk as (b' & c & Hb' & Hc & Hbc).
    assert (b' = b) as -> by congruence.
    apply Less_Some. exists a, c. repeat split; trivial. lia.
  - intros i j k Hij Hjk.
    apply Less_Some in Hij as (a & b & Ha & Hb & Hab).
    apply Less_Some in Hjk as (b' & c & Hb' & Hc & Hbc).
    assert (b' = b) as -> by congruence.
    apply Less_Some. exists a, c. repeat split; trivial. lia.
  - intros i j Hij Hji.
    apply Less_Some in Hij as (a & b & Ha & Hb & Hab).
    apply Less_Some in Hji as (b' & a' & Hb' & Ha' & Hba).
    assert (b' = b) as -> by congruence.
    assert (a' = a) as -> by congruence.
    exists a, b. repeat split; trivial. lia.
Qed.

Lemma Events_Less_strict_weak_order_witness :
  let closed := fakeEvent (daysAgo 3) a8n.ChangesetEventKindGitHubClosed 1 in
  let reopened := fakeEvent (daysAgo 2) a8n.ChangesetEventKindGitHubReopened 1 in
  let merged := fakeEvent (daysAgo 1) a8n.ChangesetEventKindGitHubMerged 1 in
  let es := [merged; closed; reopened] in
  Events.Less es 1 2 = Some true ∧ Events.Less es 2 0 = Some true ∧
  Events.Less es 1 0 = Some true.
Proof.
  intros closed reopened merged es.
  assert (Events.Less es 1 2 = Some true) as H12 by reflexivity.
  assert (Events.Less es 2 0 = Some true) as H20 by reflexivity.
  split; [exact H12|]. split; [exact H20|].
  exact (proj1 (proj2 (proj2 (Events_Less_strict_weak_order es))) 1 2 0
           H12 H20)%nat.
Defined.

(** ** Sorting through the methods *)

Lemma lookup_adjacent (p : Events) x e rest :
  (p ++ x :: e :: rest) !! length p = Some x ∧
  (p ++ x :: e :: rest) !! S (length p) = Some e.
Proof.
  split.
  - now apply list_lookup_middle.
  - rewrite lookup_app_r by lia.
    now replace (S (length p) - length p)%nat with 1%nat by lia.
Qed.

Lemma Less_adjacent (p : Events) x e rest :
  Events.Less (p ++ x :: e :: rest) (S (length p)) (length p)
  = Some (Less e x).
Proof.
  unfold Events.Less. destruct (lookup_adjacent p x e rest) as [-> ->]. done.
Qed.

Lemma Swap_adjacent (p : Events) x e rest :
  Events.Swap (p ++ x :: e :: rest) (S (length p)) (length p)
  = Some (p ++ e :: x :: rest).
Proof.
  unfold Events.Swap. destruct (lookup_adjacent p x e rest) as [-> ->].
  f_equal. rewrite (insert_app_r_alt p _ (S (length p))) by lia.
  replace (S (length p) - length p)%nat with 1%nat by lia. cbn [insert list_insert].
  rewrite (insert_app_r_alt p _ (length p)) by lia.
  now rewrite Nat.sub_diag.
Qed.

(** The inner loop moves the element after the sorted prefix to its place,
    as [sinkLeft] does on the reversed prefix. *)
Lemma sinkInPlace_spec (before : Events) e rest :
  sinkInPlace (before ++ e :: rest) (length before)
  = Some (rev (sinkLeft e (rev before)) ++ rest).
Proof.
  revert rest. induction before as [|x p IH] using rev_ind; intros rest.
  - reflexivity.
  - rewrite length_app. cbn [length]. rewrite Nat.add_1_r.
    rewrite <- app_assoc. cbn [app sinkInPlace].
    rewrite Less_adjacent, rev_unit. cbn [sinkLeft].
    destruct (Less e x).
    + rewrite Swap_adjacent, IH. cbn [rev]. now rewrite <- app_assoc.
    + cbn [rev]. rewrite rev_involutive. now rewrite <- !app_assoc.
Qed.

Lemma insertionSortInPlace_spec es :
  insertionSortInPlace es = Some (insertionSort es).
Proof.
  unfold insertionSortInPlace, insertionSort, Events.Len.
  set (F := fun before e => sinkLeft e before).
  set (step := fun state i => match state with
                              | Some es' => sinkInPlace es' i
                              | None => None
                              end).
  assert (∀ m k, (k + m = length es)%nat →
            foldl step (Some (rev (foldl F [] (take k es)) ++ drop k es))
                  (seq k m)
            = Some (rev (foldl F [] es))) as Hloop.
  { induction m as [|m IH]; intros k Hk.
    - cbn [seq foldl]. rewrite Nat.add_0_r in Hk. subst k.
      now rewrite firstn_all, drop_all, app_nil_r.
    - cbn [seq foldl].
      destruct (lookup_lt_is_Some_2 es k ltac:(lia)) as [e He].
      rewrite (drop_S es e k He).
      match goal with
      | |- context [step (Some ?x) k] =>
          change (step (Some x) k) with (sinkInPlace x k)
      end.
      assert (length (rev (foldl F [] (take k es))) = k) as Hlen.
      { rewrite length_rev.
        assert (∀ l acc, length (foldl F acc l) = (length l + length acc)%nat)
          as HF.
        { induction l as [|y l IHl]; intros acc; cbn [foldl length]; [done|].
          rewrite IHl. unfold F.
          rewrite (Permutation_length (sinkLeft_Permutation y acc)).
          cbn [length]. lia. }
        rewrite HF, length_take. cbn [length]. lia. }
      pose proof (sinkInPlace_spec (rev (foldl F [] (take k es))) e
                    (drop (S k) es)) as Hsink.
      rewrite Hlen in Hsink. rewrite Hsink, rev_involutive.
      rewrite <- (IH (S k)) by lia. f_equal. f_equal. f_equal. f_equal.
      rewrite (take_S_r es k e He), foldl_app. reflexivity. }
  destruct es as [|e0 es']; [reflexivity|].
  cbn [length]. rewrite Nat.sub_succ, Nat.sub_0_r.
  rewrite <- (Hloop (length es') 1%nat) by (cbn [length]; lia).
  reflexivity.
Qed.

Lemma StronglySorted_lookup (R : relation Event) l i j a b :
  StronglySorted R l → (i < j)%nat →
  l !! i = Some a → l !! j = Some b → R a b.
Proof.
  intros Hs. revert i j. induction Hs as [|x l Hs IH Hx]; intros i j Hij Hi Hj.
  - done.
  - destruct j as [|j]; [lia|]. cbn in Hj. destruct i as [|i]; cbn in Hi.
    + injection Hi as ->. rewrite Forall_forall in Hx.
      eapply Hx, list_elem_of_lookup_2, Hj.
    + apply (IH i j); trivial. lia.
Qed.

(** X15: insertion sort over [Len], [Swap] and [Less], the path [sort.Sort]
    takes on short slices, never indexes outside the slice, and leaves the
    events as a permutation of the input in ascending order of
    timestamps. *)
Theorem insertionSortInPlace_sorts es :
  ∃ sorted,
    insertionSortInPlace es = Some sorted ∧
    sorted ≡ₚ es ∧
    Events.Len sorted = Events.Len es ∧
    ∀ i j a b, (i ≤ j)%nat → sorted !! i = Some a → sorted !! j = Some b →
               Timestamp a ≤ Timestamp b.
Proof.
  exists (insertionSort es). split; [apply insertionSortInPlace_spec|].
  split; [apply insertionSort_Permutation|].
  split; [apply Permutation_length, insertionSort_Permutation|].
  intros i j a b Hij Hi Hj.
  destruct (decide (i = j)) as [->|Hne]; [assert (a = b) as -> by congruence; lia|].
  apply (StronglySorted_lookup _ _ i j a b (insertionSort_sorted es)); trivial.
  lia.
Qed.

(** ** The shape of a signature *)

Lemma length_PutUint n v : length (sha256.PutUint n v) = n.
Proof. unfold sha256.PutUint. now rewrite length_rev, length_map, length_seq. Qed.

Lemma length_block hs p :
  length hs = 8%nat → length (sha256.block hs p) = 8%nat.
Proof.
  intros Hhs. unfold sha256.block. cbv zeta.
  rewrite length_zip_with. cbn [length]. lia.
Qed.

Lemma length_blockGeneric n hs p :
  length hs = 8%nat → length (sha256.blockGeneric n hs p) = 8%nat.
Proof.
  revert hs p. induction n as [|n IH]; intros hs p Hhs; [done|].
  cbn [sha256.blockGeneric]. now apply IH, length_block.
Qed.

Lemma length_Sum256 data : length (sha256.Sum256 data) = 32%nat.
Proof.
  unfold sha256.Sum256. cbv zeta.
  pose proof (length_blockGeneric
                (length (data ++ sha256.padding (length data)) / 64)
                sha256.init (data ++ sha256.padding (length data)) eq_refl)
    as Hlen.
  destruct (sha256.blockGeneric _ _ _) as [|h0 [|h1 [|h2 [|h3 [|h4 [|h5 [|h6 [|h7 [|]]]]]]]]];
    try discriminate.
  cbn [map concat]. now rewrite !length_app, !length_PutUint.
Qed.

Lemma length_EncodeToString src :
  String.length (hex.EncodeToString src) = (2 * length src)%nat.
Proof.
  induction src as [|v src IH]; [done|].
  cbn [hex.EncodeToString String.length length]. rewrite IH. lia.
Qed.

Lemma digits_isHexDigit v :
  isHexDigit (hex.digit (N.shiftr (Byte.to_N v) 4)) = true ∧
  isHexDigit (hex.digit (N.land (Byte.to_N v) 0x0f)) = true.
Proof. destruct v; split; vm_compute; reflexivity. Qed.

Lemma EncodeToString_isHexDigit src :
  Forall (fun c => isHexDigit c = true)
         (list_ascii_of_string (hex.EncodeToString src)).
Proof.
  induction src as [|v src IH]; [constructor|].
  cbn [hex.EncodeToString list_ascii_of_string].
  destruct (digits_isHexDigit v) as [Hhi Hlo]. now repeat constructor.
Qed.

Lemma length_append (s s' : string) :
  String.length (String.append s s')
  = (String.length s + String.length s')%nat.
Proof.
  induction s as [|c s IH]; [done|].
  simpl. f_equal. exact IH.
Qed.

(** X16: a signature is always the seven characters ["sha256="] followed by
    exactly 64 characters of ["0123456789abcdef"], 71 characters in all,
    whatever the message and the secret. *)
Theorem sign_format message secret :
  ∃ digits,
    sign message secret = ("sha256=" ++ digits)%string ∧
    String.length digits = 64%nat ∧
    Forall (fun c => isHexDigit c = true) (list_ascii_of_string digits) ∧
    String.length (sign message secret) = 71%nat.
Proof.
  exists (hex.EncodeToString (HMAC_SHA256 secret message)).
  assert (String.length (hex.EncodeToString (HMAC_SHA256 secret message))
          = 64%nat) as Hlen.
  { rewrite length_EncodeToString. unfold HMAC_SHA256.
    now rewrite length_Sum256. }
  split; [apply sign_HMAC_SHA256|]. split; [exact Hlen|].
  split; [apply EncodeToString_isHexDigit|].
  now rewrite sign_HMAC_SHA256, length_append, Hlen.
Qed.

(** X17: a secret of more than 64 bytes signs like its SHA-256 digest: both
    give the same signature for every message. *)
Theorem sign_long_secret message secret :
  (64 < length secret)%nat →
  sign message (sha256.Sum256 secret) = sign message secret.
Proof.
  intros Hlong. rewrite !sign_HMAC_SHA256. unfold HMAC_SHA256.
  assert (hmac.keyBlock (sha256.Sum256 secret) = hmac.keyBlock secret) as ->;
    [|reflexivity].
  unfold hmac.keyBlock, sha256.BlockSize. cbv zeta.
  rewrite length_Sum256.
  destruct (Nat.ltb_spec 64 (length secret)); [|lia].
  destruct (Nat.ltb_spec 64 32); [lia|]. now rewrite length_Sum256.
Qed.

Lemma sign_long_secret_witness :
  let secret := concat (replicate 11 testSecret) in
  (64 < length secret)%nat ∧
  sign testBody (sha256.Sum256 secret) = sign testBody secret.
Proof.
  intros secret.
  assert (64 < length secret)%nat as Hlong by (vm_compute; lia).
  split; [exact Hlong|].
  exact (sign_long_secret testBody secret Hlong).
Defined.

(** ** The text of a snapshot *)

Lemma formatInt_inj z z' : formatInt z = formatInt z' → z = z'.
Proof.
  unfold formatInt. intros Heq. apply to_int_inj.
  assert (∀ n, Z.to_int n ≠ Decimal.Pos Decimal.Nil ∧
               Z.to_int n ≠ Decimal.Neg Decimal.Nil) as Hnonnil.
  { intros [|p|p]; cbn; split; try discriminate;
      intros [= Hp]; now apply Unsigned.to_uint_nonnil in Hp. }
  destruct (Hnonnil z) as [Hz1 Hz2]. destruct (Hnonnil z') as [Hz1' Hz2'].
  pose proof (NilZero.isi _ Hz1 Hz2) as H1.
  pose proof (NilZero.isi _ Hz1' Hz2') as H2.
  rewrite Heq in H1. congruence.
Qed.

Lemma string_of_uint_allNumeral d : allNumeral (NilEmpty.string_of_uint d).
Proof. induction d; cbn; auto. Qed.

Lemma formatInt_allNumeral z : allNumeral (formatInt z).
Proof.
  unfold formatInt, NilZero.string_of_int, NilZero.string_of_uint.
  destruct (Z.to_int z) as [d|d]; destruct d; cbn; auto;
    repeat split; apply string_of_uint_allNumeral.
Qed.

(** Two texts that start with numerals and go on with a character that is
    none agree in both parts. *)
Lemma allNumeral_split s1 s2 c1 c2 r1 r2 :
  allNumeral s1 → allNumeral s2 →
  isNumeral c1 = false → isNumeral c2 = false →
  String.append s1 (String.String c1 r1) = String.append s2 (String.String c2 r2) →
  s1 = s2 ∧ String.String c1 r1 = String.String c2 r2.
Proof.
  revert s2. induction s1 as [|x s1 IH]; intros [|y s2] H1 H2 Hc1 Hc2 Heq;
    cbn in *.
  - done.
  - injection Heq as -> _. destruct H2 as [Hy _]. congruence.
  - injection Heq as -> _. destruct H1 as [Hx _]. congruence.
  - injection Heq as -> Heq. destruct H1 as [_ H1]. destruct H2 as [_ H2].
    destruct (IH s2 H1 H2 Hc1 Hc2 Heq) as [-> ->]. done.
Qed.

Lemma formatInt_field z z' c c' r r' :
  isNumeral c = false → isNumeral c' = false →
  String.append (formatInt z) (String.String c r)
  = String.append (formatInt z') (String.String c' r') →
  z = z' ∧ String.String c r = String.String c' r'.
Proof.
  intros Hc Hc' Heq.
  destruct (allNumeral_split _ _ _ _ _ _ (formatInt_allNumeral z)
              (formatInt_allNumeral z') Hc Hc' Heq) as [Hz Hr].
  split; [now apply formatInt_inj|exact Hr].
Qed.

(** X18: the text of a snapshot tells all its counters: two snapshots of
    the same instant with the same text are equal. *)
Theorem String_determines_counters (timeString : time.Time → string) x y :
  Time x = Time y →
  ChangesetCounts.String timeString x = ChangesetCounts.String timeString y →
  x = y.
Proof.
  intros Htime Heq. unfold ChangesetCounts.String in Heq.
  rewrite Htime in Heq. apply append_inv_head in Heq.
  apply (append_inv_head " (Total: ") in Heq.
  repeat (simpl in Heq;
          apply formatInt_field in Heq; [|reflexivity|reflexivity];
          let H := fresh "Hfield" in
          destruct Heq as [H Heq];
          repeat (injection Heq as Heq)).
  apply counts_eq; assumption.
Qed.

Lemma String_determines_counters_witness :
  let x := Build_ChangesetCounts now 2 1 0 1 0 0 0 in
  ChangesetCounts.String formatInt x
  = "1570000000000000000 (Total: 2, Merged: 1, Closed: 0, Open: 1, OpenApproved: 0, OpenChangesRequested: 0, OpenPending: 0)"%string ∧
  Time x = Time x ∧
  ChangesetCounts.String formatInt x = ChangesetCounts.String formatInt x ∧
  x = x.
Proof.
  intros x. split; [reflexivity|].
  assert (Time x = Time x) as Htime by reflexivity.
  assert (ChangesetCounts.String formatInt x = ChangesetCounts.String formatInt x)
    as Htext by reflexivity.
  split; [exact Htime|]. split; [exact Htext|].
  exact (String_determines_counters formatInt x x Htime Htext).
Defined.

(** ** The reversing loop *)

(** X19: the second loop of [generateTimestamps] reverses a slice of any
    length, even or odd, in place: the element at index [k] ends up at index
    [len - 1 - k], the length is kept, and running the loop twice restores
    the slice. *)
Theorem reverseInPlace_reverses ts :
  reverseInPlace ts = rev ts ∧
  length (reverseInPlace ts) = length ts ∧
  (∀ k, (k < length ts)%nat →
        reverseInPlace ts !! k = ts !! (length ts - 1 - k)%nat) ∧
  reverseInPlace (reverseInPlace ts) = ts.
Proof.
  split; [apply reverseInPlace_rev|].
  split; [now rewrite reverseInPlace_rev, length_rev|].
  split.
  - intros k Hk. rewrite reverseInPlace_rev.
    replace (rev ts) with (reverse ts)
      by (unfold reverse; symmetry; apply rev_alt).
    rewrite reverse_lookup by done. f_equal. lia.
  - rewrite !reverseInPlace_rev. apply rev_involutive.
Qed.

Lemma reverseInPlace_reverses_witness :
  reverseInPlace [now; daysAgo 1; daysAgo 2] = [daysAgo 2; daysAgo 1; now] ∧
  (∀ k, (k < 3)%nat →
        reverseInPlace [now; daysAgo 1; daysAgo 2] !! k
        = [now; daysAgo 1; daysAgo 2] !! (3 - 1 - k)%nat).
Proof.
  split; [reflexivity|].
  exact (proj1 (proj2 (proj2
           (reverseInPlace_reverses [now; daysAgo 1; daysAgo 2])))).
Defined.

Lemma insertionSortInPlace_sorts_witness :
  let closed := fakeEvent (daysAgo 3) a8n.ChangesetEventKindGitHubClosed 1 in
  let reopened := fakeEvent (daysAgo 2) a8n.ChangesetEventKindGitHubReopened 1 in
  let merged := fakeEvent (daysAgo 1) a8n.ChangesetEventKindGitHubMerged 1 in
  insertionSortInPlace [merged; closed; reopened]
  = Some [closed; reopened; merged] ∧
  ∃ sorted,
    insertionSortInPlace [merged; closed; reopened] = Some sorted ∧
    sorted ≡ₚ [merged; closed; reopened].
Proof.
  intros closed reopened merged. split; [reflexivity|].
  destruct (insertionSortInPlace_sorts [merged; closed; reopened])
    as (sorted & Hsort & Hperm & _).
  exists sorted. split; [exact Hsort|exact Hperm].
Defined.
